(** * Total Care landing page: client-side behaviour, embedded and verified

  The three scripts of the page (the navigation component, the scroll
  animations component and the main entry point with its form handler)
  are thin adapters over the browser DOM.  Each one is embedded below as
  pure functions over an explicit model of the part of the page it reads
  and writes; the closure variables of a component become the fields of
  its state record. *)

From stdpp Require Import base strings list gmap.
From Stdlib Require Import ZArith Lia.

Local Open Scope string_scope.
Local Open Scope Z_scope.

(** ** The DOM fragment shared by the components *)

Module Dom.

(** [DOMTokenList]: an ordered set of class names.  [add] appends a token
    that is not there yet, [remove] deletes it, [contains] tests it. *)
Definition contains (cl : list string) (t : string) : bool :=
  bool_decide (t ∈ cl).

Definition add (cl : list string) (t : string) : list string :=
  if contains cl t then cl else cl ++ [t].

Definition remove (cl : list string) (t : string) : list string :=
  filter (λ x, x ≠ t) cl.

(** The own properties of an element that the scripts read or write.
    Pixel measures are integers. *)
Record Element := mkElement {
  tagName : string;
  classList : list string;
  attributes : gmap string string;
  textContent : string;
  disabled : bool;
  offsetHeight : Z;   (* element.offsetHeight *)
  rectTop : Z         (* element.getBoundingClientRect().top *)
}.

Definition getAttribute (e : Element) (name : string) : option string :=
  attributes e !! name.

Definition setAttribute (e : Element) (name value : string) : Element :=
  mkElement (tagName e) (classList e) (<[name := value]> (attributes e))
            (textContent e) (disabled e) (offsetHeight e) (rectTop e).

Definition setClassList (e : Element) (cl : list string) : Element :=
  mkElement (tagName e) cl (attributes e)
            (textContent e) (disabled e) (offsetHeight e) (rectTop e).

Definition setTextContent (e : Element) (t : string) : Element :=
  mkElement (tagName e) (classList e) (attributes e)
            t (disabled e) (offsetHeight e) (rectTop e).

Definition setDisabled (e : Element) (d : bool) : Element :=
  mkElement (tagName e) (classList e) (attributes e)
            (textContent e) d (offsetHeight e) (rectTop e).

Definition classAdd (e : Element) (t : string) : Element :=
  setClassList e (add (classList e) t).

Definition classRemove (e : Element) (t : string) : Element :=
  setClassList e (remove (classList e) t).

Definition hasClass (e : Element) (t : string) : bool :=
  contains (classList e) t.

(** A bare element, for building pages. *)
Definition bareElement (tag : string) (classes : list string)
           (attrs : list (string * string)) : Element :=
  mkElement tag classes (list_to_map attrs) "" false 0 0.

(** *** Trees of nodes

    JavaScript holds elements by reference: a script keeps a node in a
    variable, mutates it, detaches it, and the variable still names the
    same node.  Where a component walks or edits the tree, the document
    is therefore a store of elements keyed by node identity, and a tree
    of identities giving the document order. *)
#[local] Unset Elimination Schemes.
Inductive Tree := T (id : nat) (kids : list Tree).
#[local] Set Elimination Schemes.

Definition tid (t : Tree) : nat := match t with T i _ => i end.
Definition kidsOf (t : Tree) : list Tree := match t with T _ ks => ks end.

(** The node and everything below it, in document order. *)
Fixpoint nodeIds (t : Tree) : list nat :=
  match t with
  | T i ks => i :: concat (map nodeIds ks)
  end.

(** Everything strictly below the node: what [querySelector] and
    [querySelectorAll] called on an element range over. *)
Definition descendants (t : Tree) : list nat :=
  concat (map nodeIds (kidsOf t)).

(** [node.remove()]: the node and its subtree leave the tree. *)
Fixpoint removeNode (id : nat) (t : Tree) : Tree :=
  match t with
  | T i ks => T i (filter (λ k, tid k ≠ id) (map (removeNode id) ks))
  end.

(** [parent.appendChild(child)] of a new leaf, [parent] being the root
    of the tree. *)
Definition appendChild (t : Tree) (child : nat) : Tree :=
  match t with
  | T i ks => T i (ks ++ [T child []])
  end.

(** [node.parentNode], as the subtree rooted at the parent; [None] is
    [null] (the node is the root, or detached). *)
Fixpoint parentNode (id : nat) (t : Tree) : option Tree :=
  match t with
  | T i ks =>
      if bool_decide (id ∈ map tid ks) then Some t
      else head (omap (parentNode id) ks)
  end.

Record Document := mkDocument {
  props : gmap nat Element;
  root : Tree
}.

(** Whether the node [id] satisfies a simple selector [sel]. *)
Definition matches (d : Document) (sel : Element → bool) (id : nat) : bool :=
  match props d !! id with
  | Some e => sel e
  | None => false
  end.

Definition querySelectorAll (d : Document) (sel : Element → bool)
           (scope : Tree) : list nat :=
  filter (λ i, matches d sel i = true) (descendants scope).

Definition querySelector (d : Document) (sel : Element → bool)
           (scope : Tree) : option nat :=
  head (querySelectorAll d sel scope).

(** [Array.prototype.indexOf]: first position, or -1. *)
Definition indexOf (l : list nat) (x : nat) : Z :=
  match list_find (λ y, y = x) l with
  | Some (i, _) => Z.of_nat i
  | None => -1
  end.

(** Mutation of the node [id] through a reference to it. *)
Definition update (d : Document) (id : nat) (f : Element → Element) : Document :=
  mkDocument (alter f id (props d)) (root d).

Definition setRoot (d : Document) (t : Tree) : Document :=
  mkDocument (props d) t.

End Dom.

Import Dom.

(** ** Navigation component *)

Module Navigation.

(** What [document.querySelector] can do with a selector string. *)
Inductive QueryResult :=
| Match (target : Element)
| NoMatch                      (* returns null *)
| InvalidSelector.             (* throws a SyntaxError *)

(** Argument of [window.scrollTo]. *)
Inductive ScrollBehavior := smooth | instant.
Record ScrollToOptions := { top : Z; behavior : ScrollBehavior }.

(** Callbacks this component hands to [requestAnimationFrame]. *)
Inductive FrameCallback := cbUpdateHeaderOnScroll.

#[global] Instance FrameCallback_eq_dec : EqDecision FrameCallback.
Proof. solve_decision. Defined.

(** The part of the document and window the component works on.  The
    variables [header], [mobileMenuBtn], [mobileMenuClose] and
    [mobileMenu] are filled once by [init] from [getElementById]
    ([None] is [null]) and alias the nodes of the page from then on, so
    the slot of the page and the cached reference are one field. *)
Record Page := mkPage {
  header : option Element;
  mobileMenuBtn : option Element;
  mobileMenuClose : option Element;
  mobileMenu : option Element;
  bodyOverflow : string;                  (* document.body.style.overflow *)
  scrollY : Z;                            (* window.scrollY, window.pageYOffset *)
  documentQuery : string → QueryResult;   (* document.querySelector *)
  scrollCalls : list ScrollToOptions;     (* calls of window.scrollTo, oldest first *)
  history : list string;                  (* session history entries, oldest first *)
  frameCallbacks : list FrameCallback     (* pending animation frame callbacks *)
}.

(** The closure state of the component. *)
Record State := mkState {
  page : Page;
  isMenuOpen : bool;
  lastScrollY : Z
}.

Definition setPage (s : State) (p : Page) : State :=
  mkState p (isMenuOpen s) (lastScrollY s).
Definition setIsMenuOpen (s : State) (b : bool) : State :=
  mkState (page s) b (lastScrollY s).
Definition setLastScrollY (s : State) (y : Z) : State :=
  mkState (page s) (isMenuOpen s) y.

Definition setHeader (p : Page) (h : Element) : Page :=
  mkPage (Some h) (mobileMenuBtn p) (mobileMenuClose p) (mobileMenu p)
         (bodyOverflow p) (scrollY p) (documentQuery p) (scrollCalls p)
         (history p) (frameCallbacks p).
Definition setMenu (p : Page) (btn menu : Element) (overflow : string) : Page :=
  mkPage (header p) (Some btn) (mobileMenuClose p) (Some menu)
         overflow (scrollY p) (documentQuery p) (scrollCalls p)
         (history p) (frameCallbacks p).
Definition setScrollY (p : Page) (y : Z) : Page :=
  mkPage (header p) (mobileMenuBtn p) (mobileMenuClose p) (mobileMenu p)
         (bodyOverflow p) y (documentQuery p) (scrollCalls p)
         (history p) (frameCallbacks p).
Definition scrollTo (p : Page) (o : ScrollToOptions) : Page :=
  mkPage (header p) (mobileMenuBtn p) (mobileMenuClose p) (mobileMenu p)
         (bodyOverflow p) (scrollY p) (documentQuery p) (scrollCalls p ++ [o])
         (history p) (frameCallbacks p).
Definition pushState (p : Page) (url : string) : Page :=
  mkPage (header p) (mobileMenuBtn p) (mobileMenuClose p) (mobileMenu p)
         (bodyOverflow p) (scrollY p) (documentQuery p) (scrollCalls p)
         (history p ++ [url]) (frameCallbacks p).
Definition requestAnimationFrame (p : Page) (cb : FrameCallback) : Page :=
  mkPage (header p) (mobileMenuBtn p) (mobileMenuClose p) (mobileMenu p)
         (bodyOverflow p) (scrollY p) (documentQuery p) (scrollCalls p)
         (history p) (frameCallbacks p ++ [cb]).
Definition setFrameCallbacks (p : Page) (q : list FrameCallback) : Page :=
  mkPage (header p) (mobileMenuBtn p) (mobileMenuClose p) (mobileMenu p)
         (bodyOverflow p) (scrollY p) (documentQuery p) (scrollCalls p)
         (history p) q.

(** *** Mobile menu *)

(** [updateMenuState]: returns at once when the panel or the button is
    missing, else writes the three markers from the flag. *)
Definition updateMenuState (s : State) : State :=
  match mobileMenu (page s), mobileMenuBtn (page s) with
  | Some menu, Some btn =>
      if isMenuOpen s then
        setPage s (setMenu (page s)
                     (setAttribute btn "aria-expanded" "true")
                     (classAdd menu "open")
                     "hidden")
      else
        setPage s (setMenu (page s)
                     (setAttribute btn "aria-expanded" "false")
                     (classRemove menu "open")
                     "")
  | _, _ => s
  end.

Definition toggleMobileMenu (s : State) : State :=
  updateMenuState (setIsMenuOpen s (negb (isMenuOpen s))).

Definition closeMobileMenu (s : State) : State :=
  if isMenuOpen s then updateMenuState (setIsMenuOpen s false) else s.

(** [handleOutsideClick]: [inMenu] and [onToggle] say whether the panel,
    respectively the button, contains the target of the click. *)
Definition handleOutsideClick (inMenu onToggle : bool) (s : State) : State :=
  if negb (isMenuOpen s) || negb (bool_decide (is_Some (mobileMenu (page s))))
  then s
  else
    let isClickInsideMenu := inMenu in
    let isClickOnToggle :=
      bool_decide (is_Some (mobileMenuBtn (page s))) && onToggle in
    if negb isClickInsideMenu && negb isClickOnToggle
    then closeMobileMenu s
    else s.

Definition handleEscapeKey (key : string) (s : State) : State :=
  if bool_decide (key = "Escape") && isMenuOpen s
  then closeMobileMenu s
  else s.

(** [getState]: the object returned to callers of the public API. *)
Record PublicState := { st_isMenuOpen : bool; st_scrollY : Z }.

Definition getState (s : State) : PublicState :=
  {| st_isMenuOpen := isMenuOpen s; st_scrollY := lastScrollY s |}.

(** Sequences of menu actions. *)
Inductive MenuAction := Toggle | Close.

Definition perform (s : State) (a : MenuAction) : State :=
  match a with
  | Toggle => toggleMobileMenu s
  | Close => closeMobileMenu s
  end.

Definition performAll (acts : list MenuAction) (s : State) : State :=
  foldl perform s acts.

(** The two-state machine of the specification, written from its words:
    [toggle] flips the state, [close] forces [closed]. *)
Inductive MenuState := closed | open.

Definition spec_step (m : MenuState) (a : MenuAction) : MenuState :=
  match a, m with
  | Toggle, closed => open
  | Toggle, open => closed
  | Close, _ => closed
  end.

Definition spec_replay (acts : list MenuAction) : MenuState :=
  foldl spec_step closed acts.

Definition is_open (m : MenuState) : bool :=
  match m with open => true | closed => false end.

(** The DOM state a logical state determines: the marker class on the
    panel, [aria-expanded] on the button, the scroll lock on the body.
    A marker on an element that is not in the page holds vacuously. *)
Definition dom_matches (p : Page) (m : MenuState) : Prop :=
  match mobileMenu p with
  | Some menu => hasClass menu "open" = is_open m
  | None => True
  end ∧
  match mobileMenuBtn p with
  | Some btn =>
      getAttribute btn "aria-expanded"
      = Some (if is_open m then "true" else "false")
  | None => True
  end ∧
  bodyOverflow p = (if is_open m then "hidden" else "").

(** The initial closed state: flag down, page rendered closed. *)
Definition initial (s : State) : Prop :=
  isMenuOpen s = false ∧ dom_matches (page s) closed.

(** *** Header style *)

Definition updateHeaderOnScroll (s : State) : State :=
  match header (page s) with
  | None => s
  | Some h =>
      let y := scrollY (page s) in
      let scrollThreshold := 100 in
      let h' :=
        if scrollThreshold <? y then
          classAdd (classRemove (classAdd h "shadow-md") "bg-white/70") "bg-white/95"
        else
          classRemove (classAdd (classRemove h "shadow-md") "bg-white/70") "bg-white/95"
      in
      setLastScrollY (setPage s (setHeader (page s) h')) y
  end.

Definition handleScroll (s : State) : State :=
  setPage s (requestAnimationFrame (page s) cbUpdateHeaderOnScroll).

Definition elevated (h : Element) : bool :=
  hasClass h "shadow-md" && hasClass h "bg-white/95" && negb (hasClass h "bg-white/70").

Definition flat (h : Element) : bool :=
  negb (hasClass h "shadow-md") && hasClass h "bg-white/70" && negb (hasClass h "bg-white/95").

(** *** Animation frames *)

(** The browser moves the window, then delivers the scroll event. *)
Definition scrollEvent (s : State) (y : Z) : State :=
  handleScroll (setPage s (setScrollY (page s) y)).

Definition invoke (s : State) (cb : FrameCallback) : State :=
  match cb with
  | cbUpdateHeaderOnScroll => updateHeaderOnScroll s
  end.

(** One rendered frame: the browser takes the list of pending callbacks,
    empties it and calls each entry in order.  The result carries the
    callbacks that were called. *)
Definition animationFrame (s : State) : list FrameCallback * State :=
  let pending := frameCallbacks (page s) in
  (pending, foldl invoke (setPage s (setFrameCallbacks (page s) [])) pending).

(** Number of header style recomputations performed in the frame. *)
Definition recomputations (s : State) : nat :=
  length (filter (λ cb, cb = cbUpdateHeaderOnScroll) (fst (animationFrame s))).

(** *** Smooth scrolling *)

Record ClickEvent := mkClick {
  currentTarget : Element;
  defaultPrevented : bool
}.

Definition preventDefault (ev : ClickEvent) : ClickEvent :=
  mkClick (currentTarget ev) true.

Inductive Completion := Normal | Throws.

(** [href && href.startsWith('#') && href.length > 1]. *)
Definition isInPageAnchor (href : option string) : bool :=
  match href with
  | None => false
  | Some h =>
      negb (bool_decide (h = "")) && String.prefix "#" h
      && (1 <? String.length h)%nat
  end.

Definition handleSmoothScroll (ev : ClickEvent) (s : State)
  : Completion * ClickEvent * State :=
  let href := getAttribute (currentTarget ev) "href" in
  match href with
  | Some h =>
      if isInPageAnchor href then
        match documentQuery (page s) h with
        | InvalidSelector => (Throws, ev, s)
        | NoMatch => (Normal, ev, s)
        | Match targetElement =>
            let ev' := preventDefault ev in
            let headerHeight :=
              match header (page s) with
              | Some hd => offsetHeight hd
              | None => 0
              end in
            let targetPosition :=
              rectTop targetElement + scrollY (page s) - headerHeight in
            let p1 := scrollTo (page s)
                        {| top := targetPosition; behavior := smooth |} in
            let p2 := pushState p1 h in
            (Normal, ev', setPage s p2)
        end
      else (Normal, ev, s)
  | None => (Normal, ev, s)
  end.

(** *** Targets of in-page anchors *)

(** The first element, in document order, whose id attribute is [id]. *)
Definition getElementById (elements : list Element) (id : string) : option Element :=
  head (filter (λ e, getAttribute e "id" = Some id) elements).

Definition isDigit (c : Ascii.ascii) : bool :=
  let n := Ascii.N_of_ascii c in (48 <=? n)%N && (n <=? 57)%N.

Definition isNameStart (c : Ascii.ascii) : bool :=
  let n := Ascii.N_of_ascii c in
  ((65 <=? n)%N && (n <=? 90)%N) || ((97 <=? n)%N && (n <=? 122)%N)
  || (n =? 95)%N.

Definition isNameChar (c : Ascii.ascii) : bool :=
  isNameStart c || isDigit c || (Ascii.N_of_ascii c =? 45)%N.

Fixpoint allChars (p : Ascii.ascii → bool) (s : string) : bool :=
  match s with
  | EmptyString => true
  | String c rest => p c && allChars p rest
  end.

(** A name of ASCII letters, digits, [-] and [_] that starts with a
    letter or [_]: such a name is a CSS identifier. *)
Definition isPlainIdentifier (name : string) : bool :=
  match name with
  | EmptyString => false
  | String c rest => isNameStart c && allChars isNameChar rest
  end.

Definition startsWithDigit (name : string) : bool :=
  match name with
  | EmptyString => false
  | String c _ => isDigit c
  end.

(** What [document.querySelector] does with id selectors on a document
    whose elements are [elements]: [#name] with [name] a CSS identifier
    selects the first element carrying that id; [#] followed by a digit
    is not a selector, and the call throws a SyntaxError whatever the
    document holds. *)
Definition selectsById (elements : list Element) (query : string → QueryResult)
  : Prop :=
  (∀ name, isPlainIdentifier name = true →
     query ("#" ++ name)
     = match getElementById elements name with
       | Some e => Match e
       | None => NoMatch
       end) ∧
  (∀ name, startsWithDigit name = true → query ("#" ++ name) = InvalidSelector).

(** *** Initialisation and event delivery *)

(** The listeners [bindEvents] registers.  A listener is a function
    reference on a target, and registering the same pair again adds
    nothing, so a flag per pair is all there is to record. *)
Record Listeners := mkListeners {
  onToggleClick : bool;       (* mobileMenuBtn, click: toggleMobileMenu *)
  onCloseClick : bool;        (* mobileMenuClose, click: closeMobileMenu *)
  onMenuLinkClick : bool;     (* every a inside mobileMenu, click: closeMobileMenu *)
  onDocumentClick : bool;     (* document, click: handleOutsideClick *)
  onDocumentKeydown : bool;   (* document, keydown: handleEscapeKey *)
  onAnchorClick : bool;       (* every a[href^="#"], click: handleSmoothScroll *)
  onWindowScroll : bool       (* window, scroll: handleScroll *)
}.

Definition noListeners : Listeners :=
  mkListeners false false false false false false false.

Definition bindEvents (p : Page) : Listeners :=
  mkListeners (bool_decide (is_Some (mobileMenuBtn p)))
              (bool_decide (is_Some (mobileMenuClose p)))
              (bool_decide (is_Some (mobileMenu p)))
              true true true true.

(** The component after [init]: its state, what it listens to, and what
    it wrote with [console.warn]. *)
Record Component := mkComponent {
  state : State;
  listeners : Listeners;
  warnings : list string
}.

(** [init]: without a header it warns and returns before binding
    anything; else it binds the events and styles the header once. *)
Definition init (s : State) : Component :=
  match header (page s) with
  | None => mkComponent s noListeners ["Navigation: Header element not found"]
  | Some _ => mkComponent (updateHeaderOnScroll s) (bindEvents (page s)) []
  end.

(** The script as it runs on page load: menu closed, no scroll seen. *)
Definition load (p : Page) : Component := init (mkState p false 0).

(** Where a click lands.  The trigger button, the close button and the
    links do not contain one another (interactive elements do not nest),
    so a click hits at most one of them. *)
Inductive ClickTarget :=
| OnToggle                  (* the trigger button, or something inside it *)
| OnCloseButton             (* the close button, or something inside it *)
| OnLink (link : Element)   (* an [a] element, or something inside it *)
| Elsewhere.

(** What the browser delivers.  [inMenu] is [mobileMenu.contains(target)]
    for the target of the click. *)
Inductive UserEvent :=
| ClickOn (target : ClickTarget) (inMenu : bool)
| KeyDown (key : string)
| Scroll (y : Z)
| Frame.

(** A link is in [navLinks] when it matches [a[href^="#"]]. *)
Definition isHashLink (link : Element) : bool :=
  match getAttribute link "href" with
  | Some h => String.prefix "#" h
  | None => false
  end.

(** Delivery of one event: the listeners on the element hit, in the
    order they were registered, and then the listeners on the document,
    which the click bubbles up to. *)
Definition deliver (l : Listeners) (s : State) (ev : UserEvent) : State :=
  match ev with
  | ClickOn target inMenu =>
      let s1 :=
        match target with
        | OnToggle => if onToggleClick l then toggleMobileMenu s else s
        | OnCloseButton => if onCloseClick l then closeMobileMenu s else s
        | OnLink link =>
            let s' := if onMenuLinkClick l && inMenu then closeMobileMenu s else s in
            if onAnchorClick l && isHashLink link
            then snd (handleSmoothScroll (mkClick link false) s')
            else s'
        | Elsewhere => s
        end in
      if onDocumentClick l
      then handleOutsideClick inMenu
             match target with OnToggle => true | _ => false end s1
      else s1
  | KeyDown key => if onDocumentKeydown l then handleEscapeKey key s else s
  | Scroll y =>
      let s' := setPage s (setScrollY (page s) y) in
      if onWindowScroll l then handleScroll s' else s'
  | Frame => snd (animationFrame s)
  end.

Definition deliverAll (l : Listeners) (s : State) (evs : list UserEvent) : State :=
  foldl (deliver l) s evs.

End Navigation.

(** ** Scroll animations component *)

Module ScrollAnimations.

(** [config.selector]: the class selector [.fade-in]. *)
Definition selector (e : Element) : bool := hasClass e "fade-in".

(** The root of the tree of this component is the [document] node itself,
    so [document.querySelectorAll] ranges over everything below it.  The
    document is not an element: [parentElement] of its child is [null]. *)
Definition parentElement (d : Document) (element : nat) : option Tree :=
  match parentNode element (root d) with
  | Some parent =>
      if bool_decide (tid parent = tid (root d)) then None else Some parent
  | None => None
  end.

(** A pending [setTimeout] whose callback adds the class [visible] to
    [element]. *)
Record Timer := mkTimer { delay : Z; element : nat }.

Record IntersectionObserverEntry := mkEntry {
  target : nat;
  isIntersecting : bool
}.

(** [observer] is [None] while the variable is [null], else the targets
    the observer instance watches. *)
Record State := mkState {
  document : Document;
  supportsIntersectionObserver : bool;   (* 'IntersectionObserver' in window *)
  observer : option (list nat);
  animatedElements : list nat;
  timers : list Timer
}.

Definition setDocument (s : State) (d : Document) : State :=
  mkState d (supportsIntersectionObserver s) (observer s)
          (animatedElements s) (timers s).
Definition setObserver (s : State) (o : option (list nat)) : State :=
  mkState (document s) (supportsIntersectionObserver s) o
          (animatedElements s) (timers s).
Definition setAnimatedElements (s : State) (l : list nat) : State :=
  mkState (document s) (supportsIntersectionObserver s) (observer s)
          l (timers s).
Definition setTimeout (s : State) (t : Timer) : State :=
  mkState (document s) (supportsIntersectionObserver s) (observer s)
          (animatedElements s) (timers s ++ [t]).

(** [observerInstance.unobserve(element)]. *)
Definition unobserve (s : State) (id : nat) : State :=
  setObserver s (filter (λ x, x ≠ id) <$> observer s).

Definition observed (s : State) (id : nat) : bool :=
  match observer s with
  | Some targets => bool_decide (id ∈ targets)
  | None => false
  end.

Definition showAllElements (s : State) : State :=
  let elements := querySelectorAll (document s) selector (root (document s)) in
  setDocument s
    (foldl (λ d id, update d id (λ e, classAdd e "visible")) (document s) elements).

Definition init (s : State) : State :=
  if negb (supportsIntersectionObserver s) then showAllElements s
  else
    let found := querySelectorAll (document s) selector (root (document s)) in
    let s1 := setAnimatedElements s found in
    if bool_decide (length found = 0%nat) then s1
    else setObserver s1 (Some found).

(** [getStaggerDelay]: [None] when [element.parentElement] is [null] and
    the property access throws. *)
Definition getStaggerDelay (d : Document) (element : nat) : option Z :=
  match parentElement d element with
  | None => None
  | Some parent =>
      let siblings := querySelectorAll d selector parent in
      let index := indexOf siblings element in
      Some (index * 100)
  end.

(** The body of the [forEach] callback of [handleIntersection]. *)
Definition handleEntry (s : State) (entry : IntersectionObserverEntry)
  : option State :=
  if isIntersecting entry then
    let element := target entry in
    match getStaggerDelay (document s) element with
    | None => None
    | Some delay => Some (unobserve (setTimeout s (mkTimer delay element)) element)
    end
  else Some s.

(** [handleIntersection]: the entries in order; an exception ends the
    loop ([false] in the first component) with the effects so far kept. *)
Fixpoint handleIntersection (entries : list IntersectionObserverEntry)
         (s : State) : bool * State :=
  match entries with
  | [] => (true, s)
  | entry :: rest =>
      match handleEntry s entry with
      | None => (false, s)
      | Some s' => handleIntersection rest s'
      end
  end.

(** The callback of a timer, run when the timer fires. *)
Definition fire (t : Timer) (s : State) : State :=
  setDocument s (update (document s) (element t) (λ e, classAdd e "visible")).

Definition animateElement (s : State) (element : option nat) : State :=
  match element with
  | Some id =>
      if matches (document s) (λ e, hasClass e "fade-in") id
      then setDocument s (update (document s) id (λ e, classAdd e "visible"))
      else s
  | None => s
  end.

Definition disconnect (s : State) : State :=
  setObserver s ((λ _, []) <$> observer s).

Definition reset (s : State) : State := init (disconnect s).

Definition destroy (s : State) : State :=
  setAnimatedElements (setObserver s None) [].

(** The index the specification names: the position of the element
    among the children of its parent that match the selector. *)
Definition spec_siblingIndex (d : Document) (element : nat) : option Z :=
  match parentElement d element with
  | None => None
  | Some parent =>
      Some (indexOf (filter (λ i, matches d selector i = true)
                            (map tid (kidsOf parent))) element)
  end.

End ScrollAnimations.

(** ** Main entry point: application bootstrap and form handler *)

Module App.

(** An entry of the section observer: the section element and whether it
    lies in the observed band. *)
Record IntersectionObserverEntry := mkEntry {
  target : Element;
  isIntersecting : bool
}.

(** A template literal prints [null] for a missing attribute. *)
Definition interpolate (v : option string) : string :=
  match v with
  | Some s => s
  | None => "null"
  end.

Definition activeClass : string := "text-primary-dark".

(** [setActiveNavLink]: one pass over the node list of navigation links. *)
Definition setActiveNavLink (sectionId : option string) (navLinks : list Element)
  : list Element :=
  map (λ link,
         let href := getAttribute link "href" in
         if bool_decide (href = Some ("#" ++ interpolate sectionId))
         then classAdd link activeClass
         else classRemove link activeClass)
      navLinks.

(** The observer callback installed by [initActiveNavigation]. *)
Definition onIntersection (entries : list IntersectionObserverEntry)
           (navLinks : list Element) : list Element :=
  foldl (λ links entry,
           if isIntersecting entry then
             let id := getAttribute (target entry) "id" in
             setActiveNavLink id links
           else links)
        navLinks entries.

Definition isActive (link : Element) : bool := hasClass link activeClass.

Definition activeCount (navLinks : list Element) : nat :=
  length (filter (λ link, isActive link = true) navLinks).

(** *** Bootstrap *)

Inductive Level := Log | Warn.

(** The property [createIcons] of the icon library: missing (or any
    falsy value), a function that returns, or something whose call
    throws (a function that throws, or a truthy value that is not a
    function). *)
Inductive CreateIcons := Missing | Returns | Throws.

(** The global [lucide]: not declared (or [undefined]), [null], or a
    value with (or without) a property [createIcons]. *)
Inductive Lucide := Undefined | Null | Library (createIcons : CreateIcons).

(** What the entry point reads of the page: the body, the global
    [lucide], whether the global [IntersectionObserver] exists, the
    elements matching [section[id]] and [nav a[href^="#"]], and the form
    elements of the document. *)
Record Page := mkPage {
  body : Element;
  lucide : Lucide;
  hasIntersectionObserver : bool;
  sections : list Element;
  navLinks : list Element;
  forms : list Element
}.

(** The page, the number of icon passes run, the sections handed to the
    section observer, the forms whose submit event is handled, and the
    console. *)
Record State := mkState {
  page : Page;
  iconPasses : nat;
  observedSections : list Element;
  handledForms : list Element;
  console : list (Level * string)
}.

Definition setBody (s : State) (b : Element) : State :=
  mkState (mkPage b (lucide (page s)) (hasIntersectionObserver (page s))
                  (sections (page s)) (navLinks (page s)) (forms (page s)))
          (iconPasses s) (observedSections s) (handledForms s) (console s).
Definition write (s : State) (level : Level) (line : string) : State :=
  mkState (page s) (iconPasses s) (observedSections s) (handledForms s)
          (console s ++ [(level, line)]).

(** [config.loadingClass] and [config.loadedClass]. *)
Definition loadingClass : string := "loading".
Definition loadedClass : string := "loaded".

Definition setLoaded (s : State) : State :=
  setBody s (classAdd (classRemove (body (page s)) loadingClass) loadedClass).

(** [initIcons].  The test is
    [typeof lucide !== 'undefined' && lucide.createIcons]: for [null] the
    first half holds ([typeof null] is ['object']) and reading the
    property throws a TypeError; with a truthy [createIcons] the call is
    made and may throw.  [false] in the first component is an exception
    leaving the function. *)
Definition initIcons (s : State) : bool * State :=
  match lucide (page s) with
  | Undefined | Library Missing =>
      (true, write s Warn "Lucide icons library not loaded")
  | Null => (false, s)
  | Library Returns =>
      (true, mkState (page s) (S (iconPasses s)) (observedSections s)
                     (handledForms s) (console s))
  | Library Throws => (false, s)
  end.

(** [initActiveNavigation]: [false] when [new IntersectionObserver]
    throws because the name is not defined; nothing guards it here. *)
Definition initActiveNavigation (s : State) : bool * State :=
  if bool_decide (length (sections (page s)) = 0%nat)
     || bool_decide (length (navLinks (page s)) = 0%nat)
  then (true, s)
  else if hasIntersectionObserver (page s)
       then (true, mkState (page s) (iconPasses s) (sections (page s))
                           (handledForms s) (console s))
       else (false, s).

Definition init (s : State) : bool * State :=
  let s1 := setLoaded s in
  let '(iconsDone, s2) := initIcons s1 in
  if iconsDone then
    let '(ok, s3) := initActiveNavigation s2 in
    if ok then (true, write s3 Log "Total Care website initialized")
    else (false, s3)
  else (false, s2).

(** [FormHandler.init]: the forms matching [form[data-ajax]] get the
    submit listener. *)
Definition hasDataAjax (f : Element) : bool :=
  bool_decide (is_Some (getAttribute f "data-ajax")).

Definition formHandlerInit (s : State) : State :=
  mkState (page s) (iconPasses s) (observedSections s)
          (filter (λ f, hasDataAjax f = true) (forms (page s))) (console s).

(** The callback run when the DOM is ready: [App.init()] and then
    [FormHandler.init()], which is not reached if the first throws. *)
Definition ready (s : State) : bool * State :=
  let '(ok, s1) := init s in
  if ok then (true, formHandlerInit s1) else (false, s1).

(** The state the script starts from. *)
Definition start (p : Page) : State := mkState p 0 [] [] [].

End App.

(** ** Utility functions: debounce and throttle

    A wrapped function is known by its calls: the model keeps the list of
    the argument lists it was invoked with, each with the time of the
    invocation.  Time is in milliseconds; a timer runs its callback when
    the clock reaches the time it was set for. *)

Module Utils.

(** The delay [setTimeout] works with: its argument is converted to a
    32-bit signed integer, wrapping around, and a negative result is
    taken as 0. *)
Definition toInt32 (z : Z) : Z :=
  (z + 2147483648) mod 4294967296 - 2147483648.

Definition timerDelay (ms : Z) : Z := Z.max 0 (toInt32 ms).

Section Timing.

Context {A : Type}.   (* the argument list handed to the wrapped function *)

(** *** [debounce(func, wait)] *)

(** What happens to a debounced wrapper: it is called, or time passes.
    The wrapped function runs from a timer; a call it makes to the
    wrapper itself is a [Call] at the time of that run, and an exception
    it throws ends the timer callback and nothing else. *)
Inductive Input :=
| Call (args : A)
| Elapse (dt : Z).

(** The closure of one debounced function: the clock, the live timer the
    variable [timeout] names (the time it is due and the arguments its
    [later] will pass on), and the invocations of [func] so far. *)
Record Debounced := mkDebounced {
  now : Z;
  timeout : option (Z * A);
  invoked : list (Z * A)
}.

(** [executedFunction(...args)]: [clearTimeout(timeout)] and
    [timeout = setTimeout(later, wait)]. *)
Definition debounce_call (wait : Z) (args : A) (d : Debounced) : Debounced :=
  mkDebounced (now d) (Some (now d + timerDelay wait, args)) (invoked d).

(** Time passes; a timer that falls due runs [later], which calls
    [func(...args)]. *)
Definition debounce_elapse (dt : Z) (d : Debounced) : Debounced :=
  let t := now d + dt in
  match timeout d with
  | Some (due, args) =>
      if due <=? t
      then mkDebounced t None (invoked d ++ [(due, args)])
      else mkDebounced t (timeout d) (invoked d)
  | None => mkDebounced t None (invoked d)
  end.

Definition debounce_step (wait : Z) (d : Debounced) (i : Input) : Debounced :=
  match i with
  | Call args => debounce_call wait args d
  | Elapse dt => debounce_elapse dt d
  end.

Definition debounce_run (wait : Z) (inputs : list Input) (d : Debounced)
  : Debounced :=
  foldl (debounce_step wait) d inputs.

(** *** [throttle(func, limit)] *)

(** What the wrapped function does when it runs, as far as the wrapper
    can tell: it returns, it throws, or it calls the wrapper again (with
    [args]; should that call run the function, that run goes as [body])
    and then goes on as [next].  An exception from the inner call leaves
    the function too. *)
Inductive Body :=
| Return
| Throw
| Reenter (args : A) (body : Body) (next : Body).

(** What happens to a throttled wrapper: it is called (and the function,
    if run, goes as [body]), or time passes. *)
Inductive Invocation :=
| Invoke (args : A) (body : Body)
| Wait (dt : Z).

(** The closure of one throttled function: the clock, the flag
    [inThrottle], the pending timers that will lower it (the time each is
    due), and the invocations of [func] so far. *)
Record Throttled := mkThrottled {
  clock : Z;
  inThrottle : bool;
  resets : list Z;
  passed : list (Z * A)
}.

(** [func(...args)] starts. *)
Definition ran (args : A) (t : Throttled) : Throttled :=
  mkThrottled (clock t) (inThrottle t) (resets t) (passed t ++ [(clock t, args)]).

(** [inThrottle = true; setTimeout(() => (inThrottle = false), limit)]. *)
Definition raise (limit : Z) (t : Throttled) : Throttled :=
  mkThrottled (clock t) true (resets t ++ [clock t + timerDelay limit]) (passed t).

(** [executedFunction(...args)], given how the function runs: with the
    flag down the function is called first, and only when it has
    returned is the flag raised and the timer set; [false] in the first
    component is an exception leaving the wrapper. *)
Definition guarded (limit : Z) (args : A)
           (func : Throttled → bool * Throttled) (t : Throttled)
  : bool * Throttled :=
  if negb (inThrottle t)
  then let '(returned, t') := func (ran args t) in
       if returned then (true, raise limit t') else (false, t')
  else (true, t).

(** The function running as [body]. *)
Fixpoint throttle_func (limit : Z) (body : Body) (t : Throttled)
  : bool * Throttled :=
  match body with
  | Return => (true, t)
  | Throw => (false, t)
  | Reenter args inner next =>
      let '(returned, t1) := guarded limit args (throttle_func limit inner) t in
      if returned then throttle_func limit next t1 else (false, t1)
  end.

Definition throttle_call (limit : Z) (args : A) (body : Body) (t : Throttled)
  : bool * Throttled :=
  guarded limit args (throttle_func limit body) t.

(** Time passes; every timer that falls due lowers the flag. *)
Definition throttle_elapse (dt : Z) (t : Throttled) : Throttled :=
  let c := clock t + dt in
  let due := filter (λ r, r ≤ c) (resets t) in
  mkThrottled c
              (if bool_decide (due = []) then inThrottle t else false)
              (filter (λ r, ¬ r ≤ c) (resets t))
              (passed t).

Definition throttle_step (limit : Z) (t : Throttled) (i : Invocation)
  : Throttled :=
  match i with
  | Invoke args body => snd (throttle_call limit args body t)
  | Wait dt => throttle_elapse dt t
  end.

Definition throttle_run (limit : Z) (inputs : list Invocation) (t : Throttled)
  : Throttled :=
  foldl (throttle_step limit) t inputs.

(** The calls made, each with the time it was made at. *)
Fixpoint timedCalls (c : Z) (inputs : list Invocation) : list (Z * A) :=
  match inputs with
  | [] => []
  | Invoke args _ :: rest => (c, args) :: timedCalls c rest
  | Wait dt :: rest => timedCalls (c + dt) rest
  end.

End Timing.

Arguments Input : clear implicits.
Arguments Debounced : clear implicits.
Arguments Body : clear implicits.
Arguments Invocation : clear implicits.
Arguments Throttled : clear implicits.

(** [isInViewport(element)], from the rectangle of the element and the
    size of the viewport; [a || b] takes [b] when [a] is 0. *)
Record Rect := mkRect { top : Z; left : Z; bottom : Z; right : Z }.

Definition orElse (a b : Z) : Z := if bool_decide (a = 0) then b else a.

Definition isInViewport (rect : Rect)
           (innerHeight clientHeight innerWidth clientWidth : Z) : bool :=
  (0 <=? top rect) && (0 <=? left rect)
  && (bottom rect <=? orElse innerHeight clientHeight)
  && (right rect <=? orElse innerWidth clientWidth).

End Utils.

Module FormHandler.

(** How the statements of the [try] and [catch] blocks go for one
    submission, from the [await] on.  A field is [None] when its
    statement returns and [Some error] when it throws [error], which a
    call does before it has any effect.  [awaitThrows] is the awaited
    promise rejecting: the placeholder's promise always resolves, so for
    the program as it stands this field is [None], and it is [Some] only
    for the request the source asks to be put in its place; [showSuccessThrows] and [showErrorThrows] are the
    two calls of [this.showMessage], [resetThrows] is [form.reset()]
    (which throws when a control named [reset] hides the method). *)
Record Outcome := mkOutcome {
  awaitThrows : option string;
  showSuccessThrows : option string;
  resetThrows : option string;
  showErrorThrows : option string
}.

(** The submission goes through. *)
Definition Resolved : Outcome := mkOutcome None None None None.

(** The awaited promise rejects, and nothing else goes wrong. *)
Definition Rejected (error : string) : Outcome :=
  mkOutcome (Some error) None None None.

(** A pending [setTimeout] whose callback removes the message element. *)
Record Timer := mkTimer { delay : Z; element : nat }.

(** A call of [handleSubmit] suspended at its [await]: the local
    [submitBtn] it will use when it resumes. *)
Record Suspended := mkSuspended { submitBtn : option nat }.

(** The form (the root of [form]) with the nodes below it, the counter
    that names the next node [document.createElement] allocates, the
    current and default values of the fields, the pending timers and
    suspended calls, and the console.  The handler suppresses the default
    submission first; the page is never left, and the event itself is not
    part of the state. *)
Record State := mkState {
  form : Document;
  nextNode : nat;
  values : gmap string string;
  defaults : gmap string string;
  timers : list Timer;
  suspended : list Suspended;
  console : list string
}.

Definition setForm (s : State) (d : Document) : State :=
  mkState d (nextNode s) (values s) (defaults s) (timers s) (suspended s) (console s).
Definition setNextNode (s : State) (n : nat) : State :=
  mkState (form s) n (values s) (defaults s) (timers s) (suspended s) (console s).
Definition setValues (s : State) (v : gmap string string) : State :=
  mkState (form s) (nextNode s) v (defaults s) (timers s) (suspended s) (console s).
Definition setTimers (s : State) (t : list Timer) : State :=
  mkState (form s) (nextNode s) (values s) (defaults s) t (suspended s) (console s).
Definition setSuspended (s : State) (k : list Suspended) : State :=
  mkState (form s) (nextNode s) (values s) (defaults s) (timers s) k (console s).
Definition log (s : State) (line : string) : State :=
  mkState (form s) (nextNode s) (values s) (defaults s) (timers s) (suspended s)
          (console s ++ [line]).

(** Statements that may throw, with the state threaded through. *)
Inductive Completion := Normal | Throw (error : string).

Definition Stmt := State → Completion * State.

Definition skip : Stmt := λ s, (Normal, s).
Definition throw (e : string) : Stmt := λ s, (Throw e, s).
Definition exec (f : State → State) : Stmt := λ s, (Normal, f s).

(** A call that returns, or throws before doing anything. *)
Definition call (throws : option string) (f : State → State) : Stmt :=
  match throws with
  | Some e => throw e
  | None => exec f
  end.

Definition seq (a b : Stmt) : Stmt :=
  λ s, match a s with
       | (Normal, s1) => b s1
       | (Throw e, s1) => (Throw e, s1)
       end.

Infix ">>>" := seq (at level 65, right associativity).

(** [try { body } catch (error) { handler } finally { finalizer }]. *)
Definition tryCatchFinally (body : Stmt) (handler : string → Stmt)
           (finalizer : Stmt) : Stmt :=
  λ s,
    let '(c1, s1) := body s in
    let '(c2, s2) :=
      match c1 with
      | Normal => (Normal, s1)
      | Throw e => handler e s1
      end in
    let '(c3, s3) := finalizer s2 in
    (match c3 with Normal => c2 | Throw e => Throw e end, s3).

(** Selectors. *)
Definition isSubmitButton (e : Element) : bool :=
  bool_decide (tagName e = "button")
  && bool_decide (getAttribute e "type" = Some "submit").

Definition isFormMessage (e : Element) : bool := hasClass e "form-message".

(** [showMessage(form, type, message)]. *)
Definition showMessage (type message : string) (s : State) : State :=
  let d := form s in
  (* Remove existing messages *)
  let existingMsg := querySelector d isFormMessage (root d) in
  let d1 :=
    match existingMsg with
    | Some id => setRoot d (removeNode id (root d))
    | None => d
    end in
  (* Create message element *)
  let msgElement := nextNode s in
  let className :=
    (["form-message"; "mt-4"; "p-4"; "rounded"] ++
     (if bool_decide (type = "success")
      then ["bg-green-100"; "text-green-700"]
      else ["bg-red-100"; "text-red-700"]))%list in
  let node := setTextContent (bareElement "div" className []) message in
  (* Insert after form *)
  let d2 := mkDocument (<[msgElement := node]> (props d1))
                       (appendChild (root d1) msgElement) in
  (* Auto-remove after 5 seconds *)
  setTimers (setNextNode (setForm s d2) (S msgElement))
            (timers s ++ [mkTimer 5000 msgElement]).

(** [form.reset()]. *)
Definition resetForm (s : State) : State := setValues s (defaults s).

Definition withButton (btn : option nat) (f : Element → Element) (s : State)
  : State :=
  match btn with
  | Some id => setForm s (update (form s) id f)
  | None => s
  end.

(** [handleSubmit] up to its [await]: the button is looked up, disabled
    and relabelled, and the form data logged. *)
Definition handleSubmit_prologue (s : State) : option nat * State :=
  let btn := querySelector (form s) isSubmitButton (root (form s)) in
  let s1 := withButton btn (λ e, setTextContent (setDisabled e true) "Sending...") s in
  (btn, log s1 "Form data:").

(** The call then suspends at the [await]. *)
Definition handleSubmit_begin (s : State) : State :=
  let '(btn, s1) := handleSubmit_prologue s in
  setSuspended s1 (suspended s1 ++ [mkSuspended btn]).

(** The [catch] block. *)
Definition handleError (showThrows : option string) (error : string) : Stmt :=
  exec (λ s, log s "Form submission error:") >>>
  call showThrows (showMessage "error" "Something went wrong. Please try again.").

(** [handleSubmit] from its [await] on, once the awaited promise has
    settled. *)
Definition handleSubmit_resume (k : Suspended) (o : Outcome) : Stmt :=
  tryCatchFinally
    (call (awaitThrows o) (λ s, s) >>>
     call (showSuccessThrows o)
          (showMessage "success" "Thank you! We'll be in touch soon.") >>>
     call (resetThrows o) resetForm)
    (handleError (showErrorThrows o))
    (exec (withButton (submitBtn k)
             (λ e, setTextContent (setDisabled e false) "Submit"))).

(** [handleSubmit] when [console.log('Form data:', ...)] throws (the
    form data cannot be turned into an object): the button has been
    disabled, the [await] is never reached, and the [catch] and
    [finally] blocks run at once. *)
Definition handleSubmit_logThrows (error : string) (showThrows : option string)
  : Stmt :=
  λ s,
    let btn := querySelector (form s) isSubmitButton (root (form s)) in
    let s1 := withButton btn (λ e, setTextContent (setDisabled e true) "Sending...") s in
    tryCatchFinally
      (throw error)
      (handleError showThrows)
      (exec (withButton btn (λ e, setTextContent (setDisabled e false) "Submit")))
      s1.

(** One submission with nothing else delivered in between. *)
Definition handleSubmit (o : Outcome) (s : State) : Completion * State :=
  let '(btn, s1) := handleSubmit_prologue s in
  handleSubmit_resume (mkSuspended btn) o s1.

(** What the event loop can deliver to the form. *)
Inductive Event :=
| Submit                         (* a submit event, handled up to the await *)
| SubmitThrows (error : string) (showThrows : option string)
                                 (* a submit event whose handler throws before the await *)
| Settle (o : Outcome)           (* the oldest awaited promise settles *)
| TimerFires (n : nat).          (* the n-th pending timer fires *)

Definition step (s : State) (ev : Event) : State :=
  match ev with
  | Submit => handleSubmit_begin s
  | SubmitThrows error showThrows => snd (handleSubmit_logThrows error showThrows s)
  | Settle o =>
      match suspended s with
      | [] => s
      | k :: rest => snd (handleSubmit_resume k o (setSuspended s rest))
      end
  | TimerFires n =>
      match timers s !! n with
      | None => s
      | Some t =>
          setTimers (setForm s (setRoot (form s) (removeNode (element t) (root (form s)))))
                    (delete n (timers s))
      end
  end.

Definition run (events : list Event) (s : State) : State := foldl step s events.

(** Inline messages currently in the form. *)
Definition messages (s : State) : list nat :=
  querySelectorAll (form s) isFormMessage (root (form s)).

(** No node of the form has an identity the allocator has yet to give out. *)
Definition allocated (s : State) : Prop :=
  Forall (λ id, (id < nextNode s)%nat) (nodeIds (root (form s))).

End FormHandler.

(** * Properties *)

(** ** Token lists *)

Section TokenList.

Lemma contains_add_same cl t : contains (add cl t) t = true.
Proof.
  unfold add. destruct (contains cl t) eqn:E; [exact E|].
  unfold contains. apply bool_decide_eq_true.
  rewrite elem_of_app, list_elem_of_singleton. tauto.
Qed.

Lemma contains_add_other cl t u :
  u ≠ t → contains (add cl t) u = contains cl u.
Proof.
  intros Hne. unfold add. destruct (contains cl t); [reflexivity|].
  unfold contains. apply bool_decide_ext.
  rewrite elem_of_app, list_elem_of_singleton. tauto.
Qed.

Lemma contains_remove_same cl t : contains (remove cl t) t = false.
Proof.
  unfold contains, remove. apply bool_decide_eq_false.
  rewrite list_elem_of_filter. tauto.
Qed.

Lemma contains_remove_other cl t u :
  u ≠ t → contains (remove cl t) u = contains cl u.
Proof.
  intros Hne. unfold contains, remove. apply bool_decide_ext.
  rewrite list_elem_of_filter. tauto.
Qed.

Lemma add_present cl t : contains cl t = true → add cl t = cl.
Proof. intros H. unfold add. now rewrite H. Qed.

Lemma remove_absent cl t : contains cl t = false → remove cl t = cl.
Proof.
  unfold contains, remove. intros H. apply bool_decide_eq_false in H.
  induction cl as [|x cl IH]; [reflexivity|].
  rewrite filter_cons. destruct (decide (x ≠ t)) as [Hx|Hx].
  - f_equal. apply IH. intros Hin. apply H. now right.
  - exfalso. apply H. destruct (decide (x = t)) as [->|]; [left|tauto].
Qed.

End TokenList.

(** ** Mobile menu *)

Section MobileMenu.

Import Navigation.

(** The component and the machine agree: both elements are in the page,
    the flag is the machine state and the page shows it. *)
Definition synced (s : State) (m : MenuState) : Prop :=
  is_Some (mobileMenu (page s)) ∧ is_Some (mobileMenuBtn (page s)) ∧
  isMenuOpen s = is_open m ∧ dom_matches (page s) m.

Lemma updateMenuState_synced s m :
  is_Some (mobileMenu (page s)) → is_Some (mobileMenuBtn (page s)) →
  isMenuOpen s = is_open m →
  synced (updateMenuState s) m.
Proof.
  intros [menu Hm] [btn Hb] Hflag. unfold updateMenuState.
  rewrite Hm, Hb, Hflag.
  destruct m; cbn [is_open]; unfold synced, dom_matches; cbn;
    repeat split; eauto; try exact Hflag.
  - unfold hasClass, classRemove; cbn. apply contains_remove_same.
  - unfold getAttribute, setAttribute; cbn. apply lookup_insert_eq.
  - unfold hasClass, classAdd; cbn. apply contains_add_same.
  - unfold getAttribute, setAttribute; cbn. apply lookup_insert_eq.
Qed.

Lemma perform_synced s m a :
  synced s m → synced (perform s a) (spec_step m a).
Proof.
  intros (Hm & Hb & Hflag & Hdom). destruct a; cbn [perform].
  - unfold toggleMobileMenu. apply updateMenuState_synced; cbn; auto.
    rewrite Hflag. now destruct m.
  - unfold closeMobileMenu. destruct (isMenuOpen s) eqn:E.
    + apply updateMenuState_synced; cbn; auto.
    + destruct m; cbn in Hflag; [|congruence].
      cbn. unfold synced. auto.
Qed.

(** Clicks outside the menu and the Escape key are close actions, or
    nothing. *)
Lemma external_close_events s :
  (∀ inMenu onToggle,
      handleOutsideClick inMenu onToggle s = perform s Close ∨
      handleOutsideClick inMenu onToggle s = s) ∧
  (∀ key, handleEscapeKey key s = perform s Close ∨ handleEscapeKey key s = s).
Proof.
  split.
  - intros inMenu onToggle. unfold handleOutsideClick.
    destruct (_ || _); [now right|].
    destruct (_ && _); [now left | now right].
  - intros key. unfold handleEscapeKey.
    destruct (_ && _); [now left | now right].
Qed.

Lemma performAll_synced acts : ∀ s m,
  synced s m → synced (foldl perform s acts) (foldl spec_step m acts).
Proof.
  induction acts as [|a acts IH]; intros s m H; cbn; [exact H|].
  apply IH. now apply perform_synced.
Qed.

(** The page of the counterexamples: a header and a trigger button, no
    menu panel. *)
Definition pageWithoutPanel : Page :=
  mkPage (Some (bareElement "header" ["bg-white/70"] [("id", "header")]))
         (Some (bareElement "button" [] [("id", "mobile-menu-btn"); ("aria-expanded", "false")]))
         None None "" 0 (λ _, NoMatch) [] [] [].

Definition stateWithoutPanel : State := mkState pageWithoutPanel false 0.

(** C1, as stated, fails: with the button in the page and the panel
    missing, one toggle raises the flag and leaves [aria-expanded] and
    the scroll lock as they were. *)
Lemma menu_dom_mismatch_without_panel :
  ¬ (∀ (s : State) (acts : list MenuAction),
        initial s →
        dom_matches (page (performAll acts s)) (spec_replay acts)).
Proof.
  intros H.
  specialize (H stateWithoutPanel [Toggle]).
  destruct H as (_ & _ & Hbody).
  - split; [reflexivity|]. repeat split.
  - cbn in Hbody. discriminate Hbody.
Qed.

(** C1 (amended): when the menu panel and the trigger button are both in
    the page, every sequence of toggle and close actions from the initial
    closed state leaves the marker class, [aria-expanded] and the scroll
    lock as the two-state machine's state dictates, and the flag equal to
    that state. *)
Theorem menu_dom_refines_machine (s : State) (acts : list MenuAction) :
  is_Some (mobileMenu (page s)) →
  is_Some (mobileMenuBtn (page s)) →
  initial s →
  dom_matches (page (performAll acts s)) (spec_replay acts) ∧
  isMenuOpen (performAll acts s) = is_open (spec_replay acts).
Proof.
  intros Hm Hb [Hflag Hdom].
  destruct (performAll_synced acts s closed) as (_ & _ & Hf & Hd).
  - unfold synced. auto.
  - split; [exact Hd | exact Hf].
Qed.

Definition pageWithMenu : Page :=
  mkPage (Some (bareElement "header" ["bg-white/70"] [("id", "header")]))
         (Some (bareElement "button" [] [("id", "mobile-menu-btn"); ("aria-expanded", "false")]))
         None
         (Some (bareElement "div" ["mobile-menu"] [("id", "mobile-menu")]))
         "" 0 (λ _, NoMatch) [] [] [].

Lemma menu_dom_refines_machine_witness :
  dom_matches (page (performAll [Toggle; Close; Toggle] (mkState pageWithMenu false 0)))
              (spec_replay [Toggle; Close; Toggle]) ∧
  isMenuOpen (performAll [Toggle; Close; Toggle] (mkState pageWithMenu false 0))
  = is_open (spec_replay [Toggle; Close; Toggle]).
Proof.
  apply (menu_dom_refines_machine (mkState pageWithMenu false 0) [Toggle; Close; Toggle]).
  - cbn. eauto.
  - cbn. eauto.
  - split; [reflexivity|]. repeat split; reflexivity.
Defined.

(** C10: with the panel or the button missing, a toggle flips the flag
    that [getState] reports and changes nothing else: the page is the same
    page, so from a closed page the flag says open while the page still
    shows closed. *)
Theorem toggle_without_elements_flips_flag_only (s : State) :
  mobileMenu (page s) = None ∨ mobileMenuBtn (page s) = None →
  st_isMenuOpen (getState (toggleMobileMenu s)) = negb (st_isMenuOpen (getState s)) ∧
  page (toggleMobileMenu s) = page s ∧
  st_scrollY (getState (toggleMobileMenu s)) = st_scrollY (getState s) ∧
  (initial s →
   st_isMenuOpen (getState (toggleMobileMenu s)) = true ∧
   ¬ dom_matches (page (toggleMobileMenu s)) open).
Proof.
  intros Habsent.
  assert (E : toggleMobileMenu s = setIsMenuOpen s (negb (isMenuOpen s))).
  { unfold toggleMobileMenu, updateMenuState. cbn.
    destruct Habsent as [-> | ->]; [reflexivity|].
    now destruct (mobileMenu (page s)). }
  rewrite E. cbn. repeat split.
  - destruct H as [-> _]. reflexivity.
  - destruct H as [_ (_ & _ & Hbody)]. intros (_ & _ & Hopen).
    cbn in Hbody, Hopen. rewrite Hbody in Hopen. discriminate.
Qed.

Lemma toggle_without_elements_flips_flag_only_witness :
  st_isMenuOpen (getState (toggleMobileMenu stateWithoutPanel))
  = negb (st_isMenuOpen (getState stateWithoutPanel)) ∧
  page (toggleMobileMenu stateWithoutPanel) = page stateWithoutPanel.
Proof.
  destruct (toggle_without_elements_flips_flag_only stateWithoutPanel) as (H1 & H2 & _).
  - left. reflexivity.
  - split; assumption.
Defined.

End MobileMenu.

(** ** Header style on scroll *)

Section HeaderStyle.

Import Navigation.

Lemma hasClass_classAdd_same e t : hasClass (classAdd e t) t = true.
Proof. apply contains_add_same. Qed.

Lemma hasClass_classAdd_other e t u :
  u ≠ t → hasClass (classAdd e t) u = hasClass e u.
Proof. apply contains_add_other. Qed.

Lemma hasClass_classRemove_same e t : hasClass (classRemove e t) t = false.
Proof. apply contains_remove_same. Qed.

Lemma hasClass_classRemove_other e t u :
  u ≠ t → hasClass (classRemove e t) u = hasClass e u.
Proof. apply contains_remove_other. Qed.

(** Rewrites the class tests of an element built by [classAdd] and
    [classRemove] over literal class names. *)
Ltac class_tests :=
  repeat first
    [ rewrite hasClass_classAdd_same
    | rewrite hasClass_classRemove_same
    | rewrite hasClass_classAdd_other by discriminate
    | rewrite hasClass_classRemove_other by discriminate ].

Definition elevatedStyle (h : Element) : Element :=
  classAdd (classRemove (classAdd h "shadow-md") "bg-white/70") "bg-white/95".

Definition flatStyle (h : Element) : Element :=
  classRemove (classAdd (classRemove h "shadow-md") "bg-white/70") "bg-white/95".

Lemma elevatedStyle_spec h :
  elevated (elevatedStyle h) = true ∧ flat (elevatedStyle h) = false.
Proof. unfold elevated, flat, elevatedStyle. class_tests. split; reflexivity. Qed.

Lemma flatStyle_spec h :
  flat (flatStyle h) = true ∧ elevated (flatStyle h) = false.
Proof. unfold elevated, flat, flatStyle. class_tests. split; reflexivity. Qed.

Lemma updateHeaderOnScroll_header s h :
  header (page s) = Some h →
  header (page (updateHeaderOnScroll s))
  = Some (if 100 <? scrollY (page s) then elevatedStyle h else flatStyle h).
Proof.
  intros Hh. unfold updateHeaderOnScroll. rewrite Hh. cbn.
  destruct (100 <? scrollY (page s)); reflexivity.
Qed.

(** The header after the window has moved to offset [y] and the style
    update has run. *)
Definition headerAt (s : State) (y : Z) : option Element :=
  header (page (updateHeaderOnScroll (setPage s (setScrollY (page s) y)))).

Lemma headerAt_cases s h y :
  header (page s) = Some h →
  headerAt s y = Some (if 100 <? y then elevatedStyle h else flatStyle h).
Proof.
  intros Hh. unfold headerAt.
  rewrite (updateHeaderOnScroll_header _ h) by exact Hh. reflexivity.
Qed.

(** C2: with the header in the page, the style update at offset [y]
    leaves the elevated style exactly when [y > 100] and the flat style
    exactly when [y <= 100]; offsets 0 and 100 give the flat style and
    offset 150 the elevated one. *)
Theorem header_style_threshold (s : State) (h : Element) :
  header (page s) = Some h →
  (∀ y : Z, ∃ h', headerAt s y = Some h' ∧
      (elevated h' = true ↔ 100 < y) ∧ (flat h' = true ↔ y ≤ 100)) ∧
  (∃ h0, headerAt s 0 = Some h0 ∧ flat h0 = true ∧ elevated h0 = false) ∧
  (∃ h100, headerAt s 100 = Some h100 ∧ flat h100 = true ∧ elevated h100 = false) ∧
  (∃ h150, headerAt s 150 = Some h150 ∧ elevated h150 = true ∧ flat h150 = false).
Proof.
  intros Hh.
  pose proof (elevatedStyle_spec h) as [He1 He2].
  pose proof (flatStyle_spec h) as [Hf1 Hf2].
  repeat split.
  - intros y. rewrite (headerAt_cases s h y Hh).
    destruct (Z.ltb_spec 100 y) as [Hy|Hy]; eexists; (split; [reflexivity|]).
    + rewrite He1, He2. split; split; intros; try lia; congruence.
    + rewrite Hf1, Hf2. split; split; intros; try lia; congruence.
  - rewrite (headerAt_cases s h 0 Hh). cbn. eauto.
  - rewrite (headerAt_cases s h 100 Hh). cbn. eauto.
  - rewrite (headerAt_cases s h 150 Hh). cbn. eauto.
Qed.

Lemma header_style_threshold_witness :
  ∃ h150, headerAt (mkState pageWithMenu false 0) 150 = Some h150 ∧
          elevated h150 = true ∧ flat h150 = false.
Proof.
  destruct (header_style_threshold (mkState pageWithMenu false 0)
              (bareElement "header" ["bg-white/70"] [("id", "header")]))
    as (_ & _ & _ & H).
  - reflexivity.
  - exact H.
Defined.

Lemma classAdd_present e t : hasClass e t = true → classAdd e t = e.
Proof.
  intros H. unfold classAdd. rewrite add_present by exact H. now destruct e.
Qed.

Lemma classRemove_absent e t : hasClass e t = false → classRemove e t = e.
Proof.
  intros H. unfold classRemove. rewrite remove_absent by exact H. now destruct e.
Qed.

Lemma elevatedStyle_idempotent h :
  elevatedStyle (elevatedStyle h) = elevatedStyle h.
Proof.
  set (e := elevatedStyle h). unfold elevatedStyle.
  rewrite (classAdd_present e "shadow-md")
    by (subst e; unfold elevatedStyle; now class_tests).
  rewrite (classRemove_absent e "bg-white/70")
    by (subst e; unfold elevatedStyle; now class_tests).
  apply classAdd_present. subst e; unfold elevatedStyle; now class_tests.
Qed.

Lemma flatStyle_idempotent h : flatStyle (flatStyle h) = flatStyle h.
Proof.
  set (e := flatStyle h). unfold flatStyle.
  rewrite (classRemove_absent e "shadow-md")
    by (subst e; unfold flatStyle; now class_tests).
  rewrite (classAdd_present e "bg-white/70")
    by (subst e; unfold flatStyle; now class_tests).
  apply classRemove_absent. subst e; unfold flatStyle; now class_tests.
Qed.

(** Running the style update again changes nothing. *)
Lemma updateHeaderOnScroll_idempotent s :
  updateHeaderOnScroll (updateHeaderOnScroll s) = updateHeaderOnScroll s.
Proof.
  unfold updateHeaderOnScroll at 2 3.
  destruct (header (page s)) as [h|] eqn:Hh.
  2:{ unfold updateHeaderOnScroll. now rewrite Hh. }
  unfold updateHeaderOnScroll. cbn.
  destruct (100 <? scrollY (page s)) eqn:Hy; cbn.
  - change (classAdd (classRemove (classAdd h "shadow-md") "bg-white/70") "bg-white/95")
      with (elevatedStyle h).
    change (classAdd (classRemove (classAdd (elevatedStyle h) "shadow-md") "bg-white/70") "bg-white/95")
      with (elevatedStyle (elevatedStyle h)).
    rewrite elevatedStyle_idempotent. reflexivity.
  - change (classRemove (classAdd (classRemove h "shadow-md") "bg-white/70") "bg-white/95")
      with (flatStyle h).
    change (classRemove (classAdd (classRemove (flatStyle h) "shadow-md") "bg-white/70") "bg-white/95")
      with (flatStyle (flatStyle h)).
    rewrite flatStyle_idempotent. reflexivity.
Qed.

End HeaderStyle.

(** ** Scroll events and animation frames *)

Section ScrollFrames.

Import Navigation.

(** The state once the browser has emptied the callback list. *)
Definition dequeued (s : State) : State :=
  setPage s (setFrameCallbacks (page s) []).

Lemma scrollEvents_queue ys : ∀ s,
  frameCallbacks (page (foldl scrollEvent s ys))
  = (frameCallbacks (page s) ++ replicate (length ys) cbUpdateHeaderOnScroll)%list.
Proof.
  induction ys as [|y ys IH]; intros s; cbn [foldl length replicate].
  - now rewrite app_nil_r.
  - rewrite IH. cbn. now rewrite <- app_assoc.
Qed.

Lemma invoke_replicate n : ∀ s,
  foldl invoke s (replicate n cbUpdateHeaderOnScroll)
  = Nat.iter n updateHeaderOnScroll s.
Proof.
  induction n as [|n IH]; intros s; [reflexivity|].
  cbn [replicate foldl invoke]. rewrite IH.
  symmetry. apply Nat.iter_succ_r.
Qed.

Lemma iter_idempotent n s :
  Nat.iter (S n) updateHeaderOnScroll s = updateHeaderOnScroll s.
Proof.
  induction n as [|n IH]; [reflexivity|].
  change (updateHeaderOnScroll (Nat.iter (S n) updateHeaderOnScroll s)
          = updateHeaderOnScroll s).
  rewrite IH. apply updateHeaderOnScroll_idempotent.
Qed.

(** C8, as stated, fails: two scroll events before a frame leave two
    callbacks pending, and the frame runs the style update twice. *)
Lemma two_scroll_events_two_recomputations :
  ¬ (∀ (s : State) (ys : list Z),
        frameCallbacks (page s) = [] →
        (recomputations (foldl scrollEvent s ys) ≤ 1)%nat).
Proof.
  intros H.
  specialize (H (mkState pageWithMenu false 0) [120; 130] eq_refl).
  vm_compute in H. lia.
Qed.

(** C8 (amended): the scroll handler defers the style update to the next
    animation frame and does not coalesce: after [n] scroll events the
    frame runs the update [n] times, once per event, and leaves no
    callback pending.  The update being idempotent, the state after the
    frame is the state after one update whenever there was an event. *)
Theorem scroll_events_one_recomputation_each (s : State) (ys : list Z) :
  frameCallbacks (page s) = [] →
  let s' := foldl scrollEvent s ys in
  recomputations s' = length ys ∧
  snd (animationFrame s') = Nat.iter (length ys) updateHeaderOnScroll (dequeued s') ∧
  (ys ≠ [] → snd (animationFrame s') = updateHeaderOnScroll (dequeued s')).
Proof.
  intros Hq s'.
  assert (Hp : frameCallbacks (page s') = replicate (length ys) cbUpdateHeaderOnScroll).
  { subst s'. rewrite scrollEvents_queue, Hq. reflexivity. }
  assert (Hrun : snd (animationFrame s')
                 = Nat.iter (length ys) updateHeaderOnScroll (dequeued s')).
  { unfold animationFrame. cbn [snd]. rewrite Hp. apply invoke_replicate. }
  repeat split.
  - unfold recomputations, animationFrame. cbn [fst]. rewrite Hp.
    generalize (length ys) as n. intros n.
    induction n as [|n IH]; [reflexivity|].
    cbn [replicate]. rewrite filter_cons_True by reflexivity.
    cbn [length]. now rewrite IH.
  - exact Hrun.
  - intros Hne. rewrite Hrun. destruct ys as [|y ys]; [congruence|].
    cbn [length]. apply iter_idempotent.
Qed.

Lemma scroll_events_one_recomputation_each_witness :
  recomputations (foldl scrollEvent (mkState pageWithMenu false 0) [120; 130; 40]) = 3%nat.
Proof.
  destruct (scroll_events_one_recomputation_each
              (mkState pageWithMenu false 0) [120; 130; 40] eq_refl) as [H _].
  exact H.
Defined.

End ScrollFrames.

(** ** Smooth scrolling to in-page anchors *)

Section SmoothScroll.

Import Navigation.

Lemma isInPageAnchor_true h :
  String.prefix "#" h = true → (1 < String.length h)%nat →
  isInPageAnchor (Some h) = true.
Proof.
  intros Hp Hl. unfold isInPageAnchor. rewrite Hp.
  destruct h as [|c h]; [cbn in Hl; lia|].
  rewrite bool_decide_eq_false_2 by discriminate.
  cbn [negb andb]. now apply Nat.ltb_lt.
Qed.

(** [header ? header.offsetHeight : 0]. *)
Definition headerHeight (p : Page) : Z :=
  match header p with
  | Some hd => offsetHeight hd
  | None => 0
  end.

(** C4: a click on an anchor whose href starts with [#] and is longer
    than one character, with no element found for it, goes through the
    handler untouched: the default action is not suppressed, no scroll is
    requested and the history is as before. *)
Theorem missing_target_keeps_native_jump
        (ev : ClickEvent) (s : State) (h : string) :
  getAttribute (currentTarget ev) "href" = Some h →
  String.prefix "#" h = true →
  (1 < String.length h)%nat →
  (∀ e, documentQuery (page s) h ≠ Match e) →
  snd (fst (handleSmoothScroll ev s)) = ev ∧
  snd (handleSmoothScroll ev s) = s ∧
  defaultPrevented (snd (fst (handleSmoothScroll ev s))) = defaultPrevented ev ∧
  scrollY (page (snd (handleSmoothScroll ev s))) = scrollY (page s) ∧
  scrollCalls (page (snd (handleSmoothScroll ev s))) = scrollCalls (page s) ∧
  history (page (snd (handleSmoothScroll ev s))) = history (page s) ∧
  (documentQuery (page s) h = NoMatch → fst (fst (handleSmoothScroll ev s)) = Normal).
Proof.
  intros Hhref Hp Hl Hq.
  assert (E : ∃ c, handleSmoothScroll ev s = (c, ev, s) ∧
                   (documentQuery (page s) h = NoMatch → c = Normal)).
  { unfold handleSmoothScroll. rewrite Hhref.
    rewrite (isInPageAnchor_true h Hp Hl).
    destruct (documentQuery (page s) h) as [e| |] eqn:Hd.
    - now destruct (Hq e).
    - eauto.
    - eexists. split; [reflexivity | discriminate]. }
  destruct E as (c & -> & Hc). cbn. repeat split. exact Hc.
Qed.

Definition anchorClick (href : string) : ClickEvent :=
  mkClick (bareElement "a" [] [("href", href)]) false.

Lemma missing_target_keeps_native_jump_witness :
  snd (fst (handleSmoothScroll (anchorClick "#pricing") (mkState pageWithMenu false 0)))
  = anchorClick "#pricing" ∧
  snd (handleSmoothScroll (anchorClick "#pricing") (mkState pageWithMenu false 0))
  = mkState pageWithMenu false 0.
Proof.
  destruct (missing_target_keeps_native_jump
              (anchorClick "#pricing") (mkState pageWithMenu false 0) "#pricing")
    as (H1 & H2 & _).
  - reflexivity.
  - reflexivity.
  - cbn. lia.
  - intros e. discriminate.
  - split; assumption.
Defined.

(** C5 (amended): a click on an in-page anchor for which
    [document.querySelector(href)] returns the target element suppresses
    the default action, requests a smooth scroll to the target's position
    in the document (its viewport top plus the page offset) minus the
    header height, and appends one history entry for the anchor. *)
Theorem existing_target_scrolls_and_pushes
        (ev : ClickEvent) (s : State) (h : string) (targetElement : Element) :
  getAttribute (currentTarget ev) "href" = Some h →
  String.prefix "#" h = true →
  (1 < String.length h)%nat →
  documentQuery (page s) h = Match targetElement →
  let '(c, ev', s') := handleSmoothScroll ev s in
  c = Normal ∧
  defaultPrevented ev' = true ∧
  scrollCalls (page s')
  = (scrollCalls (page s) ++
     [{| top := rectTop targetElement + scrollY (page s) - headerHeight (page s);
         behavior := smooth |}])%list ∧
  history (page s') = (history (page s) ++ [h])%list ∧
  length (history (page s')) = S (length (history (page s))).
Proof.
  intros Hhref Hp Hl Hq.
  unfold handleSmoothScroll. rewrite Hhref.
  rewrite (isInPageAnchor_true h Hp Hl), Hq. cbn.
  repeat split. rewrite length_app. cbn. lia.
Qed.

Definition pageWithPricing : Page :=
  mkPage (Some (mkElement "header" ["bg-white/70"] ∅ "" false 64 0))
         None None None "" 300
         (λ sel, if bool_decide (sel = "#pricing")
                 then Match (mkElement "section" [] {["id" := "pricing"]} "" false 500 900)
                 else NoMatch)
         [] ["/"] [].

Lemma existing_target_scrolls_and_pushes_witness :
  let '(c, ev', s') :=
    handleSmoothScroll (anchorClick "#pricing") (mkState pageWithPricing false 0) in
  defaultPrevented ev' = true ∧
  scrollCalls (page s') = [{| top := 900 + 300 - 64; behavior := smooth |}] ∧
  history (page s') = ["/"; "#pricing"].
Proof.
  pose proof (existing_target_scrolls_and_pushes
                (anchorClick "#pricing") (mkState pageWithPricing false 0) "#pricing"
                (mkElement "section" [] {["id" := "pricing"]} "" false 500 900)
                eq_refl eq_refl ltac:(cbn; lia) eq_refl) as H.
  destruct (handleSmoothScroll _ _) as [[c ev'] s'] eqn:E.
  destruct H as (_ & H1 & H2 & H3 & _).
  repeat split; assumption.
Defined.

(** A page with one section, whose id starts with a digit. *)
Definition digitQuery (selector : string) : QueryResult :=
  match selector with
  | String _ name => if startsWithDigit name then InvalidSelector else NoMatch
  | EmptyString => NoMatch
  end.

Definition pageWithDigitId : Page :=
  mkPage (Some (mkElement "header" ["bg-white/70"] ∅ "" false 64 0))
         None None None "" 300 digitQuery [] ["/"] [].

Definition digitSection : Element :=
  mkElement "section" [] {["id" := "1abc"]} "" false 500 900.

Lemma isNameStart_not_digit c : isNameStart c = true → isDigit c = false.
Proof.
  unfold isNameStart, isDigit. generalize (Ascii.N_of_ascii c) as n. intros n.
  rewrite !orb_true_iff, !andb_true_iff, !N.leb_le, N.eqb_eq. intros H.
  apply andb_false_iff. rewrite !N.leb_gt. lia.
Qed.

Lemma hash_append c name : String c "" ++ name = String c name.
Proof. reflexivity. Qed.

Lemma digitQuery_selectsById : selectsById [digitSection] digitQuery.
Proof.
  split.
  - intros name Hid. destruct name as [|c rest]; [discriminate|].
    cbn in Hid. apply andb_true_iff in Hid as [Hc _].
    rewrite hash_append. cbn [digitQuery startsWithDigit].
    rewrite (isNameStart_not_digit c Hc).
    unfold getElementById. rewrite filter_cons_False; [reflexivity|].
    cbn. intros E. injection E as E. inversion E. subst c. discriminate Hc.
  - intros name Hd. destruct name as [|c rest]; [discriminate|].
    rewrite hash_append. cbn [digitQuery]. now rewrite Hd.
Qed.

(** C5, as stated, fails: the target [<section id="1abc">] exists, but
    [#1abc] is not a selector, [document.querySelector] throws, and the
    handler neither suppresses the default action nor scrolls nor pushes
    a history entry. *)
Lemma digit_id_target_not_scrolled :
  ¬ (∀ (s : State) (ev : ClickEvent) (elements : list Element)
       (name : string) (targetElement : Element),
        selectsById elements (documentQuery (page s)) →
        getAttribute (currentTarget ev) "href" = Some ("#" ++ name) →
        name ≠ "" →
        getElementById elements name = Some targetElement →
        let '(c, ev', s') := handleSmoothScroll ev s in
        defaultPrevented ev' = true ∧
        scrollCalls (page s')
        = (scrollCalls (page s) ++
           [{| top := rectTop targetElement + scrollY (page s) - headerHeight (page s);
               behavior := smooth |}])%list ∧
        history (page s') = (history (page s) ++ [("#" ++ name)%string])%list).
Proof.
  intros H.
  specialize (H (mkState pageWithDigitId false 0) (anchorClick "#1abc")
                [digitSection] "1abc" digitSection digitQuery_selectsById
                eq_refl ltac:(discriminate) eq_refl).
  cbn in H. destruct H as [H _]. discriminate H.
Qed.

(** Where the fragment is a plain identifier and an element carries it
    as its id, the lookup finds that element and the handler acts. *)
Lemma identifier_target_is_found
      (ev : ClickEvent) (s : State) (elements : list Element)
      (name : string) (targetElement : Element) :
  selectsById elements (documentQuery (page s)) →
  isPlainIdentifier name = true →
  getElementById elements name = Some targetElement →
  documentQuery (page s) ("#" ++ name) = Match targetElement.
Proof. intros [Hid _] Hn He. now rewrite (Hid name Hn), He. Qed.

End SmoothScroll.

(** ** Staggered reveal *)

Section StaggeredReveal.

Import ScrollAnimations.

Lemma unobserve_not_observed s id : observed (unobserve s id) id = false.
Proof.
  unfold observed, unobserve. cbn.
  destruct (observer s) as [targets|]; cbn; [|reflexivity].
  apply bool_decide_eq_false. rewrite list_elem_of_filter. tauto.
Qed.

(** What the loop body does with an intersecting entry whose target has a
    parent: one timer, delayed by 100 ms times the position of the target
    in the result of [parent.querySelectorAll('.fade-in')], and the target
    leaves the observer. *)
Lemma handleEntry_intersecting s entry parent :
  isIntersecting entry = true →
  parentElement (document s) (target entry) = Some parent →
  ∃ s', handleEntry s entry = Some s' ∧
        timers s' = (timers s ++
                     [mkTimer (indexOf (querySelectorAll (document s) selector parent)
                                       (target entry) * 100)
                              (target entry)])%list ∧
        observed s' (target entry) = false.
Proof.
  intros Hi Hp. unfold handleEntry, getStaggerDelay. rewrite Hi, Hp.
  eexists. split; [reflexivity|]. split; [reflexivity|].
  apply unobserve_not_observed.
Qed.

Lemma filter_nodeIds_flat (d : Document) (sel : Element → bool) (ks : list Tree) :
  Forall (λ k, querySelectorAll d sel k = []) ks →
  filter (λ i, matches d sel i = true) (concat (map nodeIds ks))
  = filter (λ i, matches d sel i = true) (map tid ks).
Proof.
  induction 1 as [|k ks Hk _ IH]; [reflexivity|].
  cbn [map concat]. destruct k as [i sub]. cbn [nodeIds tid].
  unfold querySelectorAll, descendants in Hk. cbn [kidsOf] in Hk.
  rewrite <- app_comm_cons, !filter_cons, filter_app, Hk, IH.
  reflexivity.
Qed.

(** Where no matching element is nested below a child of the parent, the
    position [getStaggerDelay] uses is the position among the matching
    children. *)
Lemma getStaggerDelay_without_nesting d id parent :
  parentElement d id = Some parent →
  Forall (λ k, querySelectorAll d selector k = []) (kidsOf parent) →
  ∃ index, spec_siblingIndex d id = Some index ∧
           getStaggerDelay d id = Some (index * 100).
Proof.
  intros Hp Hflat. unfold spec_siblingIndex, getStaggerDelay. rewrite Hp.
  eexists. split; [reflexivity|].
  unfold querySelectorAll, descendants.
  now rewrite (filter_nodeIds_flat d selector (kidsOf parent) Hflat).
Qed.

(** A page whose body holds a container with two animated cards, the
    first of which holds an animated caption:
    [<div> <div.fade-in> <p.fade-in/> </div> <div.fade-in/> </div>].
    Node 0 is the document, 1 [html], 2 [body], 3 the container, 4 the
    first card, 5 its caption, 6 the second card. *)
Definition nestedDocument : Document :=
  mkDocument
    (list_to_map
       [(1%nat, bareElement "html" [] []);
        (2%nat, bareElement "body" [] []);
        (3%nat, bareElement "div" [] []);
        (4%nat, bareElement "div" ["fade-in"] []);
        (5%nat, bareElement "p" ["fade-in"] []);
        (6%nat, bareElement "div" ["fade-in"] [])])
    (T 0 [T 1 [T 2 [T 3 [T 4 [T 5 []]; T 6 []]]]]).

Definition nestedState : State :=
  init (mkState nestedDocument true None [] []).

(** C3 at the failing input: the second card is the second matching child
    of its parent (index 1, so 100 ms by the claim), yet the caption
    nested in the first card is counted too and the timer is set to
    200 ms.  The card leaves the observer as claimed. *)
Theorem stagger_delay_counts_nested_matches :
  observed nestedState 6 = true ∧
  spec_siblingIndex (document nestedState) 6 = Some 1 ∧
  getStaggerDelay (document nestedState) 6 = Some 200 ∧
  ∃ s', handleIntersection [mkEntry 6 true] nestedState = (true, s') ∧
        timers s' = [mkTimer 200 6] ∧
        observed s' 6 = false.
Proof.
  split; [reflexivity|]. split; [reflexivity|]. split; [reflexivity|].
  eexists. split; [reflexivity|]. split; reflexivity.
Qed.

End StaggeredReveal.

(** ** Active navigation link *)

Section ActiveLink.

Import App.

Lemma setActiveNavLink_href id links :
  map (λ l, getAttribute l "href") (setActiveNavLink id links)
  = map (λ l, getAttribute l "href") links.
Proof.
  unfold setActiveNavLink. rewrite map_map. apply map_ext.
  intros l. now case_bool_decide.
Qed.

Lemma setActiveNavLink_active id links link' :
  link' ∈ setActiveNavLink id links →
  isActive link' = true ↔ getAttribute link' "href" = Some ("#" ++ interpolate id).
Proof.
  unfold setActiveNavLink. rewrite list_elem_of_fmap.
  intros (l & -> & _). unfold isActive, hasClass.
  case_bool_decide as Hh; cbn.
  - rewrite contains_add_same. tauto.
  - rewrite contains_remove_same. split; [discriminate | tauto].
Qed.

Lemma onIntersection_snoc entries entry links :
  onIntersection (entries ++ [entry]) links
  = if isIntersecting entry
    then setActiveNavLink (getAttribute (target entry) "id") (onIntersection entries links)
    else onIntersection entries links.
Proof. unfold onIntersection. now rewrite foldl_app. Qed.

Lemma onIntersection_href entries : ∀ links,
  map (λ l, getAttribute l "href") (onIntersection entries links)
  = map (λ l, getAttribute l "href") links.
Proof.
  induction entries as [|e entries IH]; intros links; [reflexivity|].
  unfold onIntersection in *. cbn [foldl]. rewrite IH.
  destruct (isIntersecting e); [apply setActiveNavLink_href | reflexivity].
Qed.

Lemma filter_none {A} (P : A → Prop) `{!∀ x, Decision (P x)} (l : list A) :
  (∀ x, x ∈ l → ¬ P x) → filter P l = [].
Proof.
  induction l as [|x l IH]; intros Hall; [reflexivity|].
  rewrite filter_cons_False by (apply Hall; left).
  apply IH. intros y Hy. apply Hall. now right.
Qed.

Lemma filter_iff_on {A} (P1 P2 : A → Prop)
      `{!∀ x, Decision (P1 x), !∀ x, Decision (P2 x)} (l : list A) :
  (∀ x, x ∈ l → P1 x ↔ P2 x) → filter P1 l = filter P2 l.
Proof.
  induction l as [|a l IH]; intros Hall; [reflexivity|].
  assert (IH' : filter P1 l = filter P2 l).
  { apply IH. intros y Hy. apply Hall. now right. }
  assert (Ha : P1 a ↔ P2 a) by (apply Hall; left).
  destruct (decide (P1 a)) as [H1|H1].
  - rewrite !filter_cons_True by tauto. now rewrite IH'.
  - rewrite !filter_cons_False by tauto. exact IH'.
Qed.

(** Filtering on the value of [f] commutes with mapping [f]. *)
Lemma filter_map_href {A B} `{EqDecision B} (f : A → B) (v : B) (l : list A) :
  map f (filter (λ x, f x = v) l) = filter (λ y, y = v) (map f l).
Proof.
  induction l as [|x l IH]; [reflexivity|].
  cbn [map]. rewrite !filter_cons.
  destruct (decide (f x = v)); cbn [map]; now rewrite IH.
Qed.

(** At most one element of a list without duplicates equals a given value. *)
Lemma filter_eq_NoDup {A B} `{EqDecision B} (f : A → B) (v : B) (l : list A) :
  NoDup (map f l) → (length (filter (λ x, f x = v) l) ≤ 1)%nat.
Proof.
  induction l as [|x l IH]; cbn [map]; [cbn; lia|].
  rewrite NoDup_cons. intros [Hx Hnd]. rewrite filter_cons.
  destruct (decide (f x = v)) as [Hv|Hv]; [|auto].
  cbn [length].
  assert (E : filter (λ x, f x = v) l = []).
  { apply filter_none. intros y Hy Hfy.
    apply Hx. rewrite list_elem_of_fmap. exists y.
    split; [congruence | exact Hy]. }
  rewrite E. cbn. lia.
Qed.

Definition navLink (href : string) (classes : list string) : Element :=
  bareElement "a" classes [("href", href)].

(** C9, as stated, fails: the desktop and the mobile navigation each
    carry a link to the same section, and an update for that section
    marks both. *)
Lemma duplicate_links_both_active :
  ¬ (∀ (sectionId : option string) (navLinks : list Element),
        (activeCount (setActiveNavLink sectionId navLinks) ≤ 1)%nat).
Proof.
  intros H.
  specialize (H (Some "about")
                [navLink "#about" []; navLink "#services" [];
                 navLink "#about" []; navLink "#services" []]).
  vm_compute in H. lia.
Qed.

(** C9 (amended): after the callback has handled a batch whose last
    intersecting entry is [entry], a navigation link carries the active
    marker exactly when its href is [#] followed by the identifier of
    that entry's section, on every page, whatever the links carried
    before and whatever the earlier entries of the batch were; the links
    marked are as many as the links with that href, so at most one link
    is active when no two navigation links share an href. *)
Theorem active_link_is_last_intersecting
        (entries later : list IntersectionObserverEntry)
        (entry : IntersectionObserverEntry) (navLinks : list Element) :
  isIntersecting entry = true →
  Forall (λ e, isIntersecting e = false) later →
  let links' := onIntersection (entries ++ entry :: later) navLinks in
  (∀ link', link' ∈ links' →
     isActive link' = true ↔
     getAttribute link' "href"
     = Some ("#" ++ interpolate (getAttribute (target entry) "id"))) ∧
  activeCount links'
  = length (filter (λ link, getAttribute link "href"
                            = Some ("#" ++ interpolate (getAttribute (target entry) "id")))
                   navLinks) ∧
  (NoDup (map (λ l, getAttribute l "href") navLinks) →
   (activeCount links' ≤ 1)%nat).
Proof.
  intros Hi Hlater links'.
  assert (E : links' = setActiveNavLink (getAttribute (target entry) "id")
                         (onIntersection entries navLinks)).
  { subst links'. unfold onIntersection. rewrite foldl_app. cbn [foldl].
    rewrite Hi. induction Hlater as [|e later He _ IH]; [reflexivity|].
    cbn [foldl]. now rewrite He. }
  assert (Hact : ∀ link', link' ∈ links' →
            isActive link' = true ↔
            getAttribute link' "href"
            = Some ("#" ++ interpolate (getAttribute (target entry) "id"))).
  { intros link' Hin. rewrite E in Hin.
    exact (setActiveNavLink_active _ _ link' Hin). }
  assert (Hcount : activeCount links'
                   = length (filter (λ link, getAttribute link "href"
                                             = Some ("#" ++ interpolate
                                                              (getAttribute (target entry) "id")))
                                    links')).
  { unfold activeCount.
    now rewrite (filter_iff_on
                   (λ link, isActive link = true)
                   (λ link, getAttribute link "href"
                            = Some ("#" ++ interpolate (getAttribute (target entry) "id")))
                   links') by exact Hact. }
  assert (Hhref : map (λ l, getAttribute l "href") links'
                  = map (λ l, getAttribute l "href") navLinks)
    by (rewrite E, setActiveNavLink_href; apply onIntersection_href).
  split; [exact Hact|]. split.
  - rewrite Hcount.
    rewrite <- (length_map (λ l, getAttribute l "href")
                  (filter (λ link, getAttribute link "href" = _) links')).
    rewrite <- (length_map (λ l, getAttribute l "href")
                  (filter (λ link, getAttribute link "href" = _) navLinks)).
    rewrite !filter_map_href, Hhref. reflexivity.
  - intros Hnd. rewrite Hcount. apply filter_eq_NoDup. now rewrite Hhref.
Qed.

Definition section (id : string) : Element := bareElement "section" [] [("id", id)].

Lemma active_link_is_last_intersecting_witness :
  (activeCount
     (onIntersection
        ([mkEntry (section "home") true] ++
         mkEntry (section "about") true :: [mkEntry (section "services") false])
        [navLink "#home" [activeClass]; navLink "#about" []; navLink "#services" []])
   ≤ 1)%nat.
Proof.
  refine (proj2 (proj2 (active_link_is_last_intersecting
                   [mkEntry (section "home") true]
                   [mkEntry (section "services") false]
                   (mkEntry (section "about") true)
                   [navLink "#home" [activeClass]; navLink "#about" []; navLink "#services" []]
                   eq_refl _)) _).
  - repeat constructor.
  - apply (bool_decide_unpack _). vm_compute. exact I.
Defined.

End ActiveLink.

(** ** Trees of nodes *)

Section Trees.

(** Induction on a tree with the hypothesis for every child. *)
Fixpoint Tree_ind' (P : Tree → Prop)
         (step : ∀ i ks, Forall P ks → P (T i ks)) (t : Tree) : P t :=
  match t with
  | T i ks =>
      step i ks
           ((fix all (l : list Tree) : Forall P l :=
               match l with
               | [] => List.Forall_nil P
               | k :: l' => @List.Forall_cons Tree P k l' (Tree_ind' P step k) (all l')
               end) ks)
  end.

Lemma tid_removeNode id t : tid (removeNode id t) = tid t.
Proof. now destruct t. Qed.

Lemma nodeIds_unfold t : nodeIds t = tid t :: descendants t.
Proof. now destruct t. Qed.

Lemma filter_sublist_mono {A} (P : A → Prop) `{!∀ x, Decision (P x)} (l1 l2 : list A) :
  l1 `sublist_of` l2 → filter P l1 `sublist_of` filter P l2.
Proof.
  induction 1 as [|x l1 l2 _ IH|x l1 l2 _ IH]; [constructor| |].
  - rewrite !filter_cons. destruct (decide (P x)); [now constructor | exact IH].
  - rewrite filter_cons. destruct (decide (P x)); [now constructor | exact IH].
Qed.

Lemma removeNode_kids_sublist id ks :
  Forall (λ k, nodeIds (removeNode id k) `sublist_of` nodeIds k) ks →
  concat (map nodeIds (filter (λ k, tid k ≠ id) (map (removeNode id) ks)))
  `sublist_of` concat (map nodeIds ks).
Proof.
  induction 1 as [|k ks Hk _ IH]; [constructor|].
  cbn [map]. rewrite filter_cons.
  destruct (decide (tid (removeNode id k) ≠ id)); cbn [map concat].
  - now apply sublist_app.
  - now apply sublist_inserts_l.
Qed.

Lemma nodeIds_removeNode_sublist id t :
  nodeIds (removeNode id t) `sublist_of` nodeIds t.
Proof.
  induction t as [i ks IH] using Tree_ind'.
  cbn [removeNode nodeIds]. constructor.
  now apply removeNode_kids_sublist.
Qed.

Lemma descendants_removeNode_sublist id t :
  descendants (removeNode id t) `sublist_of` descendants t.
Proof.
  destruct t as [i ks]. unfold descendants. cbn [removeNode kidsOf].
  apply removeNode_kids_sublist.
  apply Forall_forall. intros k _. apply nodeIds_removeNode_sublist.
Qed.

Lemma removeNode_kids_gone id ks :
  Forall (λ k, tid k ≠ id → id ∉ nodeIds (removeNode id k)) ks →
  id ∉ concat (map nodeIds (filter (λ k, tid k ≠ id) (map (removeNode id) ks))).
Proof.
  induction 1 as [|k ks Hk _ IH]; [cbn; apply not_elem_of_nil|].
  cbn [map]. rewrite filter_cons.
  destruct (decide (tid (removeNode id k) ≠ id)) as [Hne|Heq]; [|exact IH].
  cbn [map concat]. rewrite elem_of_app. intros [Hin|Hin]; [|now apply IH].
  rewrite tid_removeNode in Hne. now apply Hk.
Qed.

Lemma nodeIds_removeNode_gone id t :
  tid t ≠ id → id ∉ nodeIds (removeNode id t).
Proof.
  induction t as [i ks IH] using Tree_ind'. cbn [tid]. intros Hne.
  cbn [removeNode nodeIds]. rewrite elem_of_cons.
  intros [Heq|Hin]; [congruence|].
  now apply (removeNode_kids_gone id ks).
Qed.

Lemma descendants_removeNode_gone id t : id ∉ descendants (removeNode id t).
Proof.
  destruct t as [i ks]. unfold descendants. cbn [removeNode kidsOf].
  apply removeNode_kids_gone.
  apply Forall_forall. intros k _. apply nodeIds_removeNode_gone.
Qed.

Lemma descendants_appendChild t c :
  descendants (appendChild t c) = (descendants t ++ [c])%list.
Proof.
  destruct t as [i ks]. unfold descendants. cbn [appendChild kidsOf].
  rewrite map_app, concat_app. cbn. reflexivity.
Qed.

Lemma nodeIds_appendChild t c :
  nodeIds (appendChild t c) = (nodeIds t ++ [c])%list.
Proof.
  rewrite !nodeIds_unfold, descendants_appendChild. now destruct t.
Qed.

End Trees.

(** ** Form handler *)

Section FormMessages.

Import FormHandler.

(** The state is in order: every node has an identity already given out,
    and the form shows at most one message. *)
Definition tidy (s : State) : Prop :=
  allocated s ∧ (length (messages s) ≤ 1)%nat.

Lemma tidy_same_form s s' :
  form s' = form s → nextNode s' = nextNode s → tidy s → tidy s'.
Proof.
  unfold tidy, allocated, messages. intros -> ->. tauto.
Qed.

Lemma matches_update d id f sel i :
  (∀ e, sel (f e) = sel e) →
  matches (update d id f) sel i = matches d sel i.
Proof.
  intros Hsel. unfold matches, update. cbn [props].
  rewrite lookup_alter. case_decide as Hid; [|reflexivity].
  subst i. destruct (props d !! id); cbn; [apply Hsel | reflexivity].
Qed.

Lemma messages_withButton btn f s :
  (∀ e, classList (f e) = classList e) →
  messages (withButton btn f s) = messages s.
Proof.
  intros Hf. destruct btn as [b|]; [|reflexivity].
  unfold messages, querySelectorAll. cbn.
  apply list_filter_iff. intros i.
  rewrite matches_update; [reflexivity|].
  intros e. unfold isFormMessage, hasClass. now rewrite Hf.
Qed.

Lemma tidy_withButton btn f s :
  (∀ e, classList (f e) = classList e) → tidy s → tidy (withButton btn f s).
Proof.
  intros Hf [Ha Hm]. split.
  - destruct btn; exact Ha.
  - now rewrite messages_withButton.
Qed.

Lemma new_message_matches type message m :
  isFormMessage
    (setTextContent
       (bareElement "div"
          (["form-message"; "mt-4"; "p-4"; "rounded"] ++
           (if bool_decide (type = "success")
            then ["bg-green-100"; "text-green-700"]
            else ["bg-red-100"; "text-red-700"]))%list m) message) = true.
Proof.
  unfold isFormMessage, hasClass, contains. cbn.
  apply bool_decide_eq_true. left.
Qed.

(** [showMessage] on a tidy form leaves exactly one message: the new one. *)
Lemma showMessage_tidy type message s :
  tidy s →
  messages (showMessage type message s) = [nextNode s] ∧
  tidy (showMessage type message s).
Proof.
  intros [Halloc Hone].
  set (d := form s).
  set (root1 := match querySelector d isFormMessage (root d) with
                | Some id => removeNode id (root d)
                | None => root d
                end).
  assert (Hsub : nodeIds root1 `sublist_of` nodeIds (root d)).
  { subst root1. destruct (querySelector _ _ _); [|reflexivity].
    apply nodeIds_removeNode_sublist. }
  assert (Hdsub : descendants root1 `sublist_of` descendants (root d)).
  { subst root1. destruct (querySelector _ _ _); [|reflexivity].
    apply descendants_removeNode_sublist. }
  assert (Hold : filter (λ i, matches d isFormMessage i = true) (descendants root1) = []).
  { subst root1. unfold querySelector. fold d in Hone. unfold messages in Hone.
    fold d in Hone.
    destruct (querySelectorAll d isFormMessage (root d)) as [|id rest] eqn:Hq;
      cbn [head].
    - exact Hq.
    - destruct rest; [|cbn in Hone; lia].
      pose proof (filter_sublist_mono (λ i, matches d isFormMessage i = true) _ _
                    (descendants_removeNode_sublist id (root d))) as Hs.
      unfold querySelectorAll in Hq. rewrite Hq in Hs.
      destruct (filter _ (descendants (removeNode id (root d)))) as [|x l] eqn:Hf;
        [reflexivity|].
      assert (Hx : x ∈ [id]) by (eapply elem_of_sublist; [left | exact Hs]).
      apply list_elem_of_singleton in Hx. subst x.
      assert (Hin : id ∈ filter (λ i, matches d isFormMessage i = true)
                                (descendants (removeNode id (root d))))
        by (rewrite Hf; left).
      apply list_elem_of_filter in Hin. destruct Hin as [_ Hin].
      now apply descendants_removeNode_gone in Hin. }
  assert (Hfresh : ∀ i, i ∈ nodeIds root1 → (i < nextNode s)%nat).
  { intros i Hi. unfold allocated in Halloc. rewrite Forall_forall in Halloc.
    apply Halloc. eapply elem_of_sublist; [exact Hi | exact Hsub]. }
  assert (Hmsg : messages (showMessage type message s) = [nextNode s]).
  { unfold messages, showMessage, querySelectorAll. cbn [form root props setForm setNextNode setTimers].
    fold d.
    replace (props match querySelector d isFormMessage (root d) with
                   | Some id => setRoot d (removeNode id (root d))
                   | None => d
                   end) with (props d)
      by (destruct (querySelector _ _ _); reflexivity).
    replace (root match querySelector d isFormMessage (root d) with
                  | Some id => setRoot d (removeNode id (root d))
                  | None => d
                  end) with root1
      by (subst root1; destruct (querySelector _ _ _); reflexivity).
    rewrite descendants_appendChild, filter_app.
    rewrite filter_cons_True, filter_nil.
    2:{ unfold matches. cbn [props]. rewrite lookup_insert_eq.
        apply new_message_matches. }
    rewrite (filter_iff_on _ (λ i, matches d isFormMessage i = true)).
    - now rewrite Hold.
    - intros i Hi. unfold matches. cbn [props].
      rewrite lookup_insert_ne; [reflexivity|].
      assert (i < nextNode s)%nat; [|lia].
      apply Hfresh. rewrite nodeIds_unfold. now right. }
  split; [exact Hmsg|]. split; [|rewrite Hmsg; cbn; lia].
  unfold allocated, showMessage. cbn [form root nextNode setForm setNextNode setTimers].
  fold d.
  replace (root match querySelector d isFormMessage (root d) with
                | Some id => setRoot d (removeNode id (root d))
                | None => d
                end) with root1
    by (subst root1; destruct (querySelector _ _ _); reflexivity).
  rewrite nodeIds_appendChild, Forall_app. split.
  - apply Forall_forall. intros i Hi. specialize (Hfresh i Hi). lia.
  - repeat constructor.
Qed.

(** The state the [catch] block leaves. *)
Definition caught (showThrows : option string) (s : State) : State :=
  match showThrows with
  | Some _ => log s "Form submission error:"
  | None => showMessage "error" "Something went wrong. Please try again."
                        (log s "Form submission error:")
  end.

(** The state the [try] and [catch] blocks leave, by the first statement
    that throws. *)
Definition tried (o : Outcome) (s : State) : State :=
  match awaitThrows o, showSuccessThrows o, resetThrows o with
  | Some _, _, _ => caught (showErrorThrows o) s
  | None, Some _, _ => caught (showErrorThrows o) s
  | None, None, Some _ =>
      caught (showErrorThrows o)
             (showMessage "success" "Thank you! We'll be in touch soon." s)
  | None, None, None =>
      resetForm (showMessage "success" "Thank you! We'll be in touch soon." s)
  end.

Lemma resume_state k o s :
  snd (handleSubmit_resume k o s)
  = withButton (submitBtn k) (λ e, setTextContent (setDisabled e false) "Submit")
               (tried o s).
Proof. destruct o as [[?|] [?|] [?|] [?|]]; reflexivity. Qed.

Lemma logThrows_state error showThrows s :
  snd (handleSubmit_logThrows error showThrows s)
  = withButton (querySelector (form s) isSubmitButton (root (form s)))
               (λ e, setTextContent (setDisabled e false) "Submit")
               (caught showThrows
                  (withButton (querySelector (form s) isSubmitButton (root (form s)))
                              (λ e, setTextContent (setDisabled e true) "Sending...") s)).
Proof.
  unfold handleSubmit_logThrows.
  destruct (querySelector (form s) isSubmitButton (root (form s)));
    destruct showThrows; reflexivity.
Qed.

Lemma caught_tidy showThrows s : tidy s → tidy (caught showThrows s).
Proof.
  intros Ht. unfold caught. destruct showThrows.
  - eapply tidy_same_form; [reflexivity..|exact Ht].
  - apply showMessage_tidy. eapply tidy_same_form; [reflexivity..|exact Ht].
Qed.

Lemma tried_tidy o s : tidy s → tidy (tried o s).
Proof.
  intros Ht. unfold tried.
  destruct (awaitThrows o); [now apply caught_tidy|].
  destruct (showSuccessThrows o); [now apply caught_tidy|].
  destruct (resetThrows o).
  - apply caught_tidy. now apply showMessage_tidy.
  - eapply tidy_same_form; [reflexivity..|]. now apply showMessage_tidy.
Qed.

Lemma step_tidy s ev : tidy s → tidy (step s ev).
Proof.
  intros Ht. destruct ev as [|error showThrows|o|n]; cbn [step].
  - unfold handleSubmit_begin, handleSubmit_prologue.
    eapply tidy_same_form; [reflexivity..|].
    eapply tidy_same_form; [reflexivity..|].
    now apply tidy_withButton.
  - rewrite logThrows_state. apply tidy_withButton; [reflexivity|].
    apply caught_tidy. now apply tidy_withButton.
  - destruct (suspended s) as [|k rest]; [exact Ht|].
    rewrite resume_state. apply tidy_withButton; [reflexivity|].
    apply tried_tidy. eapply tidy_same_form; [reflexivity..|exact Ht].
  - destruct (timers s !! n) as [t|]; [|exact Ht].
    destruct Ht as [Ha Hm]. split.
    + unfold allocated in *. cbn.
      rewrite Forall_forall in *. intros i Hi. apply Ha.
      eapply elem_of_sublist; [exact Hi | apply nodeIds_removeNode_sublist].
    + unfold messages, querySelectorAll in *. cbn.
      etransitivity; [|exact Hm]. apply sublist_length.
      apply filter_sublist_mono, descendants_removeNode_sublist.
Qed.

Lemma run_tidy events : ∀ s, tidy s → tidy (run events s).
Proof.
  induction events as [|ev events IH]; intros s Ht; [exact Ht|].
  unfold run in *. cbn [foldl]. apply IH. now apply step_tidy.
Qed.

(** C7: starting from a form that shows at most one message, whatever
    submissions, settlements and timers the event loop delivers and in
    whatever order, the form never shows more than one message; and every
    call of [showMessage] leaves exactly one, the one it has just
    appended. *)
Theorem at_most_one_form_message (s : State) (events : list Event) :
  allocated s →
  (length (messages s) ≤ 1)%nat →
  (length (messages (run events s)) ≤ 1)%nat ∧
  ∀ type message,
    messages (showMessage type message (run events s)) = [nextNode (run events s)].
Proof.
  intros Ha Hm.
  assert (Ht : tidy (run events s)) by (apply run_tidy; split; assumption).
  split; [apply Ht|].
  intros type message. now apply showMessage_tidy.
Qed.

End FormMessages.

Section FormSubmission.

Import FormHandler.

(** A contact form: a name field, a submit button labelled
    [Send message], nothing else. *)
Definition contactForm : State :=
  mkState
    (mkDocument
       (list_to_map
          [(0%nat, bareElement "form" [] [("data-ajax", "")]);
           (1%nat, bareElement "input" [] [("name", "name")]);
           (2%nat, setTextContent (bareElement "button" [] [("type", "submit")])
                                  "Send message")])
       (T 0 [T 1 []; T 2 []]))
    3 {["name" := "Ada"]} {["name" := ""]} [] [] [].

Lemma at_most_one_form_message_witness :
  (length (messages (run [Submit; Submit; Settle Resolved;
                          Settle (Rejected "offline"); TimerFires 0]
                         contactForm)) ≤ 1)%nat.
Proof.
  refine (proj1 (at_most_one_form_message contactForm
                   [Submit; Submit; Settle Resolved;
                    Settle (Rejected "offline"); TimerFires 0] _ _)).
  - unfold allocated. cbn. repeat constructor.
  - vm_compute. lia.
Defined.

(** The button a submission works on, as the nodes of the form have it. *)
Definition buttonOf (s : State) (b : nat) : option Element := props (form s) !! b.

Lemma buttonOf_showMessage type message s b :
  is_Some (buttonOf s b) → is_Some (buttonOf (showMessage type message s) b).
Proof.
  unfold buttonOf, showMessage. cbn [form props setForm setNextNode setTimers].
  replace (props match querySelector (form s) isFormMessage (root (form s)) with
                 | Some id => setRoot (form s) (removeNode id (root (form s)))
                 | None => form s
                 end) with (props (form s))
    by (destruct (querySelector _ _ _); reflexivity).
  intros H. rewrite lookup_insert. case_decide; [eauto | exact H].
Qed.

Lemma buttonOf_withButton f s b :
  buttonOf (withButton (Some b) f s) b = f <$> buttonOf s b.
Proof. unfold buttonOf, withButton, update. cbn. apply lookup_alter_eq. Qed.

Lemma querySelector_in_props d sel scope b :
  querySelector d sel scope = Some b → is_Some (props d !! b).
Proof.
  unfold querySelector, querySelectorAll. intros H.
  apply head_Some in H. destruct H as [l Hl].
  assert (Hin : b ∈ filter (λ i, matches d sel i = true) (descendants scope))
    by (rewrite Hl; left).
  apply list_elem_of_filter in Hin. destruct Hin as [Hm _].
  unfold matches in Hm. destruct (props d !! b); [eauto | discriminate].
Qed.

(** The resumed call re-enables and relabels the button it holds,
    whichever statement of the [try] or [catch] block throws and in
    whatever state it resumes. *)
Lemma resume_restores_button k o s b :
  submitBtn k = Some b →
  is_Some (buttonOf s b) →
  ∃ e, buttonOf (snd (handleSubmit_resume k o s)) b = Some e ∧
       disabled e = false ∧ textContent e = "Submit".
Proof.
  intros Hk Hb. rewrite resume_state, Hk, buttonOf_withButton.
  assert (Hc : ∀ showThrows s0, is_Some (buttonOf s0 b) →
                                is_Some (buttonOf (caught showThrows s0) b)).
  { intros showThrows s0 H0. unfold caught. destruct showThrows; [exact H0|].
    now apply buttonOf_showMessage. }
  assert (H : is_Some (buttonOf (tried o s) b)).
  { unfold tried.
    destruct (awaitThrows o); [now apply Hc|].
    destruct (showSuccessThrows o); [now apply Hc|].
    destruct (resetThrows o).
    - apply Hc. now apply buttonOf_showMessage.
    - change (is_Some (buttonOf (showMessage "success"
                                   "Thank you! We'll be in touch soon." s) b)).
      now apply buttonOf_showMessage. }
  destruct H as [e He]. rewrite He. cbn. eauto.
Qed.

(** C6, as stated, fails: the button is relabelled [Submit], not given
    back the text it carried before the submission. *)
Lemma submit_label_not_restored :
  ¬ (∀ (s : State) (o : Outcome) (b : nat) (before : Element),
        querySelector (form s) isSubmitButton (root (form s)) = Some b →
        buttonOf s b = Some before →
        ∃ after, buttonOf (snd (handleSubmit o s)) b = Some after ∧
                 disabled after = false ∧
                 textContent after = textContent before).
Proof.
  intros H.
  destruct (H contactForm Resolved 2%nat
              (setTextContent (bareElement "button" [] [("type", "submit")]) "Send message")
              eq_refl eq_refl) as (after & Hafter & _ & Htext).
  vm_compute in Hafter. injection Hafter as <-. discriminate Htext.
Qed.

(** C6 (amended): whether the awaited submission resolves or throws, the
    finalizer runs and leaves the submit control enabled and labelled
    [Submit]; this holds for a submission run on its own and for a call
    resumed after other events. *)
Theorem submit_button_reenabled (s : State) (o : Outcome) (b : nat) :
  querySelector (form s) isSubmitButton (root (form s)) = Some b →
  (∃ after, buttonOf (snd (handleSubmit o s)) b = Some after ∧
            disabled after = false ∧ textContent after = "Submit") ∧
  (∃ during, buttonOf (handleSubmit_begin s) b = Some during ∧
             disabled during = true ∧ textContent during = "Sending...") ∧
  (∀ s', is_Some (buttonOf s' b) →
         ∃ after, buttonOf (snd (handleSubmit_resume (mkSuspended (Some b)) o s')) b
                  = Some after ∧
                  disabled after = false ∧ textContent after = "Submit").
Proof.
  intros Hq.
  pose proof (querySelector_in_props _ _ _ _ Hq) as [e0 He0].
  assert (Hpro : buttonOf (snd (handleSubmit_prologue s)) b
                 = Some (setTextContent (setDisabled e0 true) "Sending...")).
  { unfold handleSubmit_prologue. rewrite Hq. cbn [snd].
    change (buttonOf (withButton (Some b)
                        (λ e, setTextContent (setDisabled e true) "Sending...") s) b
            = Some (setTextContent (setDisabled e0 true) "Sending...")).
    rewrite buttonOf_withButton. unfold buttonOf. now rewrite He0. }
  repeat split.
  - unfold handleSubmit.
    destruct (handleSubmit_prologue s) as [btn s1] eqn:Hp.
    assert (btn = Some b) as ->.
    { unfold handleSubmit_prologue in Hp. rewrite Hq in Hp. congruence. }
    apply resume_restores_button; [reflexivity|].
    cbn [snd] in Hpro. rewrite Hpro. eauto.
  - unfold handleSubmit_begin.
    destruct (handleSubmit_prologue s) as [btn s1] eqn:Hp.
    cbn [snd] in Hpro. eexists. split; [exact Hpro|]. split; reflexivity.
  - intros s' Hs'. now apply resume_restores_button.
Qed.

Lemma submit_button_reenabled_witness :
  ∃ after, buttonOf (snd (handleSubmit (Rejected "offline") contactForm)) 2%nat
           = Some after ∧
           disabled after = false ∧ textContent after = "Submit".
Proof.
  exact (proj1 (submit_button_reenabled contactForm (Rejected "offline") 2%nat eq_refl)).
Defined.

End FormSubmission.

(** * Further properties of the components *)

(** ** Navigation: the menu handlers *)

Section MenuHandlers.

Import Navigation.

Lemma remove_add_absent cl t :
  contains cl t = false → remove (add cl t) t = cl.
Proof.
  intros H. unfold add. rewrite H. unfold remove.
  rewrite filter_app, filter_cons_False, filter_nil, app_nil_r by tauto.
  now apply remove_absent.
Qed.

Lemma setAttribute_back e name v w :
  getAttribute e name = Some v →
  setAttribute (setAttribute e name w) name v = e.
Proof.
  unfold getAttribute, setAttribute. intros H. cbn.
  rewrite insert_insert_eq, insert_id by exact H. now destruct e.
Qed.

Lemma classRemove_classAdd e t :
  hasClass e t = false → classRemove (classAdd e t) t = e.
Proof.
  destruct e as [tag cl attrs text dis oh rt].
  unfold hasClass, classRemove, classAdd, setClassList.
  cbn [classList tagName attributes textContent disabled offsetHeight rectTop].
  intros H. now rewrite remove_add_absent.
Qed.

(** X1: Opening the menu from the closed page and closing it again, by a
    second toggle or by a close, gives back the very state it started
    from: no class, attribute or style is left behind. *)
Theorem open_then_close_restores_page (s : State) :
  is_Some (mobileMenu (page s)) →
  is_Some (mobileMenuBtn (page s)) →
  initial s →
  toggleMobileMenu (toggleMobileMenu s) = s ∧
  closeMobileMenu (toggleMobileMenu s) = s.
Proof.
  intros [menu Hm] [btn Hb] (Hflag & Hopen & Haria & Hbody).
  rewrite Hm in Hopen. rewrite Hb in Haria. cbn in Hopen, Haria, Hbody.
  assert (E1 : toggleMobileMenu s
               = mkState (setMenu (page s) (setAttribute btn "aria-expanded" "true")
                            (classAdd menu "open") "hidden")
                         true (lastScrollY s)).
  { unfold toggleMobileMenu, updateMenuState. cbn. now rewrite Hm, Hb, Hflag. }
  assert (E2 : mkState (setMenu (setMenu (page s) (setAttribute btn "aria-expanded" "true")
                                   (classAdd menu "open") "hidden")
                          (setAttribute (setAttribute btn "aria-expanded" "true")
                                        "aria-expanded" "false")
                          (classRemove (classAdd menu "open") "open") "")
                       false (lastScrollY s) = s).
  { rewrite (setAttribute_back btn "aria-expanded" "false" "true" Haria).
    rewrite (classRemove_classAdd menu "open" Hopen). destruct s as [p o y]. cbn in *. subst o.
    destruct p. cbn in *. now subst. }
  rewrite E1. split.
  - unfold toggleMobileMenu, updateMenuState. cbn. exact E2.
  - unfold closeMobileMenu, updateMenuState. cbn. exact E2.
Qed.

Lemma open_then_close_restores_page_witness :
  toggleMobileMenu (toggleMobileMenu (mkState pageWithMenu false 0))
  = mkState pageWithMenu false 0.
Proof.
  refine (proj1 (open_then_close_restores_page (mkState pageWithMenu false 0) _ _ _)).
  - cbn. eauto.
  - cbn. eauto.
  - split; [reflexivity|]. repeat split; reflexivity.
Defined.

(** What the menu handlers leave alone. *)
Definition sameOutsideMenu (s s' : State) : Prop :=
  header (page s') = header (page s) ∧
  mobileMenuClose (page s') = mobileMenuClose (page s) ∧
  scrollY (page s') = scrollY (page s) ∧
  scrollCalls (page s') = scrollCalls (page s) ∧
  history (page s') = history (page s) ∧
  frameCallbacks (page s') = frameCallbacks (page s) ∧
  lastScrollY s' = lastScrollY s ∧
  (is_Some (mobileMenu (page s')) ↔ is_Some (mobileMenu (page s))) ∧
  (is_Some (mobileMenuBtn (page s')) ↔ is_Some (mobileMenuBtn (page s))).

Lemma sameOutsideMenu_refl s : sameOutsideMenu s s.
Proof. unfold sameOutsideMenu. tauto. Qed.

Lemma sameOutsideMenu_trans s1 s2 s3 :
  sameOutsideMenu s1 s2 → sameOutsideMenu s2 s3 → sameOutsideMenu s1 s3.
Proof.
  unfold sameOutsideMenu.
  intros (A1 & A2 & A3 & A4 & A5 & A6 & A7 & A8 & A9)
         (B1 & B2 & B3 & B4 & B5 & B6 & B7 & B8 & B9).
  repeat split; try congruence; tauto.
Qed.

Lemma updateMenuState_outside s : sameOutsideMenu s (updateMenuState s).
Proof.
  unfold updateMenuState.
  destruct (mobileMenu (page s)) as [menu|] eqn:Hm;
    [|apply sameOutsideMenu_refl].
  destruct (mobileMenuBtn (page s)) as [btn|] eqn:Hb;
    [|apply sameOutsideMenu_refl].
  destruct (isMenuOpen s); unfold sameOutsideMenu; cbn;
    rewrite Hm, Hb; repeat split; eauto.
Qed.

Lemma perform_outside s a : sameOutsideMenu s (perform s a).
Proof.
  destruct a; cbn [perform].
  - unfold toggleMobileMenu.
    exact (updateMenuState_outside (setIsMenuOpen s (negb (isMenuOpen s)))).
  - unfold closeMobileMenu. destruct (isMenuOpen s).
    + exact (updateMenuState_outside (setIsMenuOpen s false)).
    + apply sameOutsideMenu_refl.
Qed.

(** X2: Menu actions keep to the menu: whatever the sequence of toggles and
    closes, the header, the scroll position, the scroll requests, the
    history, the pending frame callbacks and the recorded offset are as
    before, and no element appears or disappears. *)
Theorem menu_actions_touch_only_menu (acts : list MenuAction) (s : State) :
  sameOutsideMenu s (performAll acts s).
Proof.
  revert s. induction acts as [|a acts IH]; intros s.
  - apply sameOutsideMenu_refl.
  - unfold performAll in *. cbn [foldl].
    eapply sameOutsideMenu_trans; [apply perform_outside | apply IH].
Qed.

Lemma closeMobileMenu_flag s : isMenuOpen (closeMobileMenu s) = false.
Proof.
  unfold closeMobileMenu. destruct (isMenuOpen s) eqn:E; [|exact E].
  unfold updateMenuState. cbn.
  destruct (mobileMenu (page s)), (mobileMenuBtn (page s)); reflexivity.
Qed.

(** X3: The Escape key closes the menu, page included when it was in step
    with the flag; every other key is ignored. *)
Theorem escape_key_closes_menu (s : State) :
  (∀ key, key ≠ "Escape" → handleEscapeKey key s = s) ∧
  isMenuOpen (handleEscapeKey "Escape" s) = false ∧
  (∀ m, synced s m → synced (handleEscapeKey "Escape" s) closed).
Proof.
  split; [|split].
  - intros key Hk. unfold handleEscapeKey.
    now rewrite bool_decide_eq_false_2.
  - unfold handleEscapeKey. cbn. destruct (isMenuOpen s) eqn:E; [|exact E].
    apply closeMobileMenu_flag.
  - intros m Hs.
    assert (Hc : synced (closeMobileMenu s) closed)
      by exact (perform_synced s m Close Hs).
    unfold handleEscapeKey. cbn. destruct (isMenuOpen s) eqn:E; [exact Hc|].
    unfold closeMobileMenu in Hc. now rewrite E in Hc.
Qed.

Lemma handleOutsideClick_inside s inMenu onToggle :
  inMenu = true ∨ (onToggle = true ∧ is_Some (mobileMenuBtn (page s))) →
  handleOutsideClick inMenu onToggle s = s.
Proof.
  unfold handleOutsideClick. intros [-> | [-> Hb]].
  - destruct (_ || _); reflexivity.
  - rewrite (bool_decide_eq_true_2 _ Hb).
    destruct (_ || _); [reflexivity|]. now destruct inMenu.
Qed.

(** X4: A click is an outside click only when it lands outside the panel and
    outside the trigger button: a click inside either, or any click while
    the panel is missing, changes nothing; a click outside both closes
    the menu. *)
Theorem outside_click_closes_menu (s : State) (inMenu onToggle : bool) :
  (inMenu = true → handleOutsideClick inMenu onToggle s = s) ∧
  (onToggle = true → is_Some (mobileMenuBtn (page s)) →
   handleOutsideClick inMenu onToggle s = s) ∧
  (mobileMenu (page s) = None → handleOutsideClick inMenu onToggle s = s) ∧
  (is_Some (mobileMenu (page s)) → inMenu = false →
   (onToggle = false ∨ mobileMenuBtn (page s) = None) →
   handleOutsideClick inMenu onToggle s = closeMobileMenu s ∧
   isMenuOpen (handleOutsideClick inMenu onToggle s) = false).
Proof.
  unfold handleOutsideClick. split; [|split; [|split]].
  - intros ->. destruct (_ || _); reflexivity.
  - intros -> Hb. rewrite (bool_decide_eq_true_2 _ Hb).
    destruct (_ || _); [reflexivity|]. now destruct inMenu.
  - intros Hm. rewrite Hm.
    rewrite (bool_decide_eq_false_2 (is_Some None)) by (intros [? ?]; discriminate).
    now rewrite orb_true_r.
  - intros Hm -> Hout. rewrite (bool_decide_eq_true_2 _ Hm).
    assert (Ht : bool_decide (is_Some (mobileMenuBtn (page s))) && onToggle = false).
    { destruct Hout as [-> | ->]; [apply andb_false_r|].
      rewrite (bool_decide_eq_false_2 (is_Some None)) by (intros [? ?]; discriminate).
      reflexivity. }
    rewrite Ht. cbn. rewrite orb_false_r.
    destruct (isMenuOpen s) eqn:E; cbn.
    + split; [reflexivity | apply closeMobileMenu_flag].
    + split; [|exact E]. unfold closeMobileMenu. now rewrite E.
Qed.

End MenuHandlers.

(** ** Navigation: initialisation and delivery of events *)

Section NavigationEvents.

Import Navigation.

(** The two things [handleSmoothScroll] can do to the state. *)
Lemma handleSmoothScroll_state ev s :
  snd (handleSmoothScroll ev s) = s ∨
  ∃ o h, snd (handleSmoothScroll ev s) = setPage s (pushState (scrollTo (page s) o) h).
Proof.
  unfold handleSmoothScroll.
  destruct (getAttribute (currentTarget ev) "href") as [h|]; [|now left].
  destruct (isInPageAnchor (Some h)); [|now left].
  destruct (documentQuery (page s) h); [right; eauto | now left | now left].
Qed.

Lemma handleSmoothScroll_synced ev s m :
  synced s m → synced (snd (handleSmoothScroll ev s)) m.
Proof.
  intros Hs. destruct (handleSmoothScroll_state ev s) as [-> | (o & h & ->)];
    [exact Hs|]. exact Hs.
Qed.

Lemma handleSmoothScroll_flag ev s :
  isMenuOpen (snd (handleSmoothScroll ev s)) = isMenuOpen s.
Proof.
  destruct (handleSmoothScroll_state ev s) as [-> | (o & h & ->)]; reflexivity.
Qed.

Lemma setScrollY_same p : setScrollY p (scrollY p) = p.
Proof. now destruct p. Qed.

(** X5: Without a header the component is inert.  [init] warns and binds
    nothing, so whatever the user does afterwards (clicks on the trigger
    button included) the menu stays closed and the page is the page that
    was loaded, scrolled to wherever the browser scrolled it. *)
Theorem navigation_inert_without_header (p : Page) (evs : list UserEvent) :
  header p = None →
  frameCallbacks p = [] →
  warnings (load p) = ["Navigation: Header element not found"] ∧
  ∃ y, deliverAll (listeners (load p)) (state (load p)) evs
       = mkState (setScrollY p y) false 0.
Proof.
  intros Hh Hq. unfold load, init. cbn [page]. rewrite Hh. cbn.
  split; [reflexivity|].
  assert (G : ∀ evs y, ∃ y',
             deliverAll noListeners (mkState (setScrollY p y) false 0) evs
             = mkState (setScrollY p y') false 0).
  { clear evs. induction evs as [|ev evs IH]; intros y; [now exists y|].
    unfold deliverAll in *. cbn [foldl].
    destruct ev as [target inMenu|key|y'|].
    - assert (E : deliver noListeners (mkState (setScrollY p y) false 0)
                          (ClickOn target inMenu)
                  = mkState (setScrollY p y) false 0)
        by (destruct target; reflexivity).
      rewrite E. apply IH.
    - cbn. apply IH.
    - cbn. apply (IH y').
    - assert (E : deliver noListeners (mkState (setScrollY p y) false 0) Frame
                  = mkState (setScrollY p y) false 0).
      { cbn. rewrite Hq. cbn. unfold setFrameCallbacks, setPage, setScrollY. cbn.
        now rewrite Hq. }
      rewrite E. apply IH. }
  destruct (G evs (scrollY p)) as [y' Hy']. exists y'.
  now rewrite setScrollY_same in Hy'.
Qed.

Lemma navigation_inert_without_header_witness :
  ∃ y, deliverAll (listeners (load (mkPage None (mobileMenuBtn pageWithMenu) None
                                           (mobileMenu pageWithMenu) "" 0
                                           (λ _, NoMatch) [] [] [])))
                  (state (load (mkPage None (mobileMenuBtn pageWithMenu) None
                                       (mobileMenu pageWithMenu) "" 0
                                       (λ _, NoMatch) [] [] [])))
                  [ClickOn OnToggle false; Scroll 40; Frame; KeyDown "Escape"]
       = mkState (setScrollY (mkPage None (mobileMenuBtn pageWithMenu) None
                                     (mobileMenu pageWithMenu) "" 0
                                     (λ _, NoMatch) [] [] []) y) false 0.
Proof.
  exact (proj2 (navigation_inert_without_header
                  (mkPage None (mobileMenuBtn pageWithMenu) None
                          (mobileMenu pageWithMenu) "" 0 (λ _, NoMatch) [] [] [])
                  [ClickOn OnToggle false; Scroll 40; Frame; KeyDown "Escape"]
                  eq_refl eq_refl)).
Defined.

(** X6: A click on the trigger button toggles the menu, and the document's
    outside-click listener, which sees the same click next, does not undo
    it: the net effect of the click is one [toggleMobileMenu]. *)
Theorem toggle_click_is_one_toggle (s : State) (inMenu : bool) :
  is_Some (mobileMenuBtn (page s)) →
  deliver (bindEvents (page s)) s (ClickOn OnToggle inMenu) = toggleMobileMenu s.
Proof.
  intros Hb. cbn. rewrite (bool_decide_eq_true_2 _ Hb).
  apply handleOutsideClick_inside. right. split; [reflexivity|].
  apply (perform_outside s Toggle). exact Hb.
Qed.

Lemma toggle_click_is_one_toggle_witness :
  deliver (bindEvents pageWithMenu) (mkState pageWithMenu false 0)
          (ClickOn OnToggle false)
  = toggleMobileMenu (mkState pageWithMenu false 0).
Proof.
  apply (toggle_click_is_one_toggle (mkState pageWithMenu false 0) false).
  cbn. eauto.
Defined.

Definition anchorClickTarget (href : string) : Element :=
  bareElement "a" [] [("href", href)].

(** X7: A click on a link inside the menu panel closes the menu and, when the
    link points into the page, goes on to the smooth scroll; the
    outside-click listener adds nothing.  With the panel and the button
    in step with the flag before, the page shows the closed menu after. *)
Theorem menu_link_click_closes_menu (s : State) (link : Element) :
  is_Some (mobileMenu (page s)) →
  let s' := deliver (bindEvents (page s)) s (ClickOn (OnLink link) true) in
  isMenuOpen s' = false ∧
  (∀ m, synced s m → synced s' closed) ∧
  s' = (if isHashLink link
        then snd (handleSmoothScroll (mkClick link false) (closeMobileMenu s))
        else closeMobileMenu s).
Proof.
  intros Hm s'.
  assert (E : s' = (if isHashLink link
                    then snd (handleSmoothScroll (mkClick link false) (closeMobileMenu s))
                    else closeMobileMenu s)).
  { subst s'. cbn. rewrite (bool_decide_eq_true_2 _ Hm). cbn.
    apply handleOutsideClick_inside. now left. }
  split; [|split; [|exact E]].
  - rewrite E. destruct (isHashLink link).
    + rewrite handleSmoothScroll_flag. apply closeMobileMenu_flag.
    + apply closeMobileMenu_flag.
  - intros m Hs. rewrite E.
    assert (Hc : synced (closeMobileMenu s) closed)
      by exact (perform_synced s m Close Hs).
    destruct (isHashLink link); [now apply handleSmoothScroll_synced | exact Hc].
Qed.

Lemma menu_link_click_closes_menu_witness :
  isMenuOpen (deliver (bindEvents pageWithMenu)
                      (toggleMobileMenu (mkState pageWithMenu false 0))
                      (ClickOn (OnLink (anchorClickTarget "#pricing")) true))
  = false.
Proof.
  refine (proj1 (menu_link_click_closes_menu
                   (toggleMobileMenu (mkState pageWithMenu false 0))
                   (anchorClickTarget "#pricing") _)).
  cbn. eauto.
Defined.

End NavigationEvents.

(** ** Navigation: anchors and the header *)

Section AnchorsAndHeader.

Import Navigation.

Lemma isInPageAnchor_inv h :
  isInPageAnchor (Some h) = true → ∃ rest, h = "#" ++ rest ∧ rest ≠ "".
Proof.
  unfold isInPageAnchor. intros H.
  apply andb_true_iff in H as [H Hlen]. apply andb_true_iff in H as [_ Hpre].
  destruct h as [|c rest]; [discriminate Hpre|].
  cbn [String.prefix] in Hpre.
  destruct (Ascii.ascii_dec _ c) as [<-|]; [|discriminate].
  exists rest. split; [reflexivity|].
  intros ->. cbn in Hlen. discriminate.
Qed.

(** X8: The smooth-scroll handler acts on nothing but links of the form
    [#name] with a non-empty name: for a link without href, an external
    link or a bare [#] it returns with the event and the state as they
    were, and the browser does what it does by default. *)
Theorem smooth_scroll_ignores_other_links (ev : ClickEvent) (s : State) :
  (∀ rest, rest ≠ "" → getAttribute (currentTarget ev) "href" ≠ Some ("#" ++ rest)) →
  handleSmoothScroll ev s = (Normal, ev, s).
Proof.
  intros Hno. unfold handleSmoothScroll.
  destruct (getAttribute (currentTarget ev) "href") as [h|] eqn:Hh; [|reflexivity].
  destruct (isInPageAnchor (Some h)) eqn:Ha; [|reflexivity].
  apply isInPageAnchor_inv in Ha as (rest & -> & Hrest).
  now destruct (Hno rest Hrest).
Qed.

Lemma smooth_scroll_ignores_other_links_witness :
  handleSmoothScroll (anchorClick "#") (mkState pageWithPricing false 0)
  = (Normal, anchorClick "#", mkState pageWithPricing false 0).
Proof.
  apply (smooth_scroll_ignores_other_links (anchorClick "#")
           (mkState pageWithPricing false 0)).
  intros rest Hrest. cbn. intros E. inversion E as [E']. now apply Hrest.
Defined.

(** X9: The style update touches three classes of the header and nothing
    else: every other class and every attribute of the header stays, the
    menu is not involved, the offset seen is recorded for [getState], and
    a second run with the window where it was changes nothing more. *)
Theorem header_update_touches_three_classes (s : State) (h : Element) :
  header (page s) = Some h →
  ∃ h', header (page (updateHeaderOnScroll s)) = Some h' ∧
        (∀ t, t ≠ "shadow-md" → t ≠ "bg-white/70" → t ≠ "bg-white/95" →
              hasClass h' t = hasClass h t) ∧
        attributes h' = attributes h ∧
        st_scrollY (getState (updateHeaderOnScroll s)) = scrollY (page s) ∧
        st_isMenuOpen (getState (updateHeaderOnScroll s)) = isMenuOpen s ∧
        mobileMenu (page (updateHeaderOnScroll s)) = mobileMenu (page s) ∧
        mobileMenuBtn (page (updateHeaderOnScroll s)) = mobileMenuBtn (page s) ∧
        bodyOverflow (page (updateHeaderOnScroll s)) = bodyOverflow (page s) ∧
        updateHeaderOnScroll (updateHeaderOnScroll s) = updateHeaderOnScroll s.
Proof.
  intros Hh. rewrite (updateHeaderOnScroll_header s h Hh).
  eexists. split; [reflexivity|].
  split; [|split].
  - intros t H1 H2 H3.
    destruct (100 <? scrollY (page s)); unfold elevatedStyle, flatStyle;
      repeat first [ rewrite hasClass_classAdd_other by assumption
                   | rewrite hasClass_classRemove_other by assumption ];
      reflexivity.
  - destruct (100 <? scrollY (page s)); reflexivity.
  - unfold updateHeaderOnScroll at 1 2 3 4 5. rewrite Hh. cbn.
    repeat split. apply updateHeaderOnScroll_idempotent.
Qed.

Lemma header_update_touches_three_classes_witness :
  ∃ h', header (page (updateHeaderOnScroll (mkState pageWithPricing false 0))) = Some h' ∧
        attributes h' = ∅.
Proof.
  destruct (header_update_touches_three_classes
              (mkState pageWithPricing false 0)
              (mkElement "header" ["bg-white/70"] ∅ "" false 64 0) eq_refl)
    as (h' & H1 & _ & H2 & _).
  exists h'. split; [exact H1 | exact H2].
Defined.

(** X10: [getState().scrollY] is the offset at the last style update, not the
    position of the window: after loading it is the offset the page was
    loaded at, a scroll event alone does not move it, and the frame that
    follows brings it up to date. *)
Theorem getState_scrollY_follows_frames (p : Page) (y : Z) :
  is_Some (header p) →
  frameCallbacks p = [] →
  st_scrollY (getState (state (load p))) = scrollY p ∧
  st_scrollY (getState (deliver (listeners (load p)) (state (load p)) (Scroll y)))
  = scrollY p ∧
  st_scrollY (getState (deliverAll (listeners (load p)) (state (load p))
                                   [Scroll y; Frame])) = y.
Proof.
  intros [h Hh] Hq. unfold load, init. cbn [page]. rewrite Hh.
  cbn [state listeners].
  unfold updateHeaderOnScroll at 1 2 3. cbn [page]. rewrite Hh.
  split; [reflexivity|]. split; [reflexivity|].
  cbn. rewrite Hq. cbn. reflexivity.
Qed.

Lemma getState_scrollY_follows_frames_witness :
  st_scrollY (getState (deliverAll (listeners (load pageWithMenu))
                                   (state (load pageWithMenu))
                                   [Scroll 250; Frame])) = 250.
Proof.
  refine (proj2 (proj2 (getState_scrollY_follows_frames pageWithMenu 250 _ eq_refl))).
  cbn. eauto.
Defined.

End AnchorsAndHeader.

(** ** Scroll animations: initialisation, batches, reset *)

Section RevealLifecycle.

Import ScrollAnimations.

Definition reveal (d : Document) (id : nat) : Document :=
  update d id (λ e, classAdd e "visible").

Lemma classAdd_twice e t : classAdd (classAdd e t) t = classAdd e t.
Proof. apply classAdd_present, hasClass_classAdd_same. Qed.

Lemma reveal_all_root ids : ∀ d, root (foldl reveal d ids) = root d.
Proof.
  induction ids as [|a ids IH]; intros d; [reflexivity|].
  cbn [foldl]. now rewrite IH.
Qed.

Lemma reveal_all_props ids : ∀ d i,
  props (foldl reveal d ids) !! i
  = (λ e, if bool_decide (i ∈ ids) then classAdd e "visible" else e)
      <$> props d !! i.
Proof.
  induction ids as [|a ids IH]; intros d i.
  - cbn. destruct (props d !! i); reflexivity.
  - cbn [foldl]. rewrite IH. unfold reveal, update. cbn [props].
    rewrite lookup_alter.
    destruct (decide (a = i)) as [->|Hne].
    + destruct (props d !! i) as [e|]; [|reflexivity]. cbn.
      rewrite (bool_decide_eq_true_2 (i ∈ i :: ids)) by left.
      case_bool_decide; [now rewrite classAdd_twice | reflexivity].
    + destruct (props d !! i) as [e|]; [|reflexivity]. cbn.
      f_equal. apply (f_equal (λ b : bool, if b then _ else _)).
      apply bool_decide_ext. rewrite elem_of_cons.
      split; [tauto | intros [Heq|Hin]; [congruence | exact Hin]].
Qed.

(** X11: Without [IntersectionObserver], [init] reveals at once: every element
    with the class [fade-in] gets the class [visible] and keeps its other
    classes, every other node is as it was, the tree is the same, and no
    observer or timer is created. *)
Theorem fallback_reveals_all_at_once (s : State) :
  supportsIntersectionObserver s = false →
  (∀ id e, props (document s) !! id = Some e →
     props (document (init s)) !! id
     = Some (if bool_decide (id ∈ querySelectorAll (document s) selector
                                    (root (document s)))
             then classAdd e "visible" else e)) ∧
  (∀ id, id ∈ querySelectorAll (document s) selector (root (document s)) →
     matches (document (init s)) (λ e, hasClass e "visible" && selector e) id = true) ∧
  root (document (init s)) = root (document s) ∧
  observer (init s) = observer s ∧
  timers (init s) = timers s.
Proof.
  intros Hno. unfold init. rewrite Hno. cbn [negb].
  unfold showAllElements, setDocument. cbn [document observer timers].
  change (λ (d : Document) (id : nat), update d id (λ e, classAdd e "visible"))
    with reveal.
  assert (Hprops : ∀ id e, props (document s) !! id = Some e →
            props (foldl reveal (document s)
                     (querySelectorAll (document s) selector (root (document s)))) !! id
            = Some (if bool_decide (id ∈ querySelectorAll (document s) selector
                                           (root (document s)))
                    then classAdd e "visible" else e)).
  { intros id e He. now rewrite reveal_all_props, He. }
  split; [exact Hprops|]. split; [|split; [apply reveal_all_root | split; reflexivity]].
  intros id Hin.
  pose proof Hin as Hin'. unfold querySelectorAll in Hin'.
  apply list_elem_of_filter in Hin' as [Hm _].
  unfold matches in Hm |- *.
  destruct (props (document s) !! id) as [e|] eqn:He; [|discriminate].
  rewrite (Hprops id e He), (bool_decide_eq_true_2 _ Hin).
  rewrite hasClass_classAdd_same. cbn.
  unfold selector in *. now rewrite hasClass_classAdd_other.
Qed.

Lemma fallback_reveals_all_at_once_witness :
  matches (document (init (mkState nestedDocument false None [] [])))
          (λ e, hasClass e "visible" && selector e) 5 = true.
Proof.
  destruct (fallback_reveals_all_at_once (mkState nestedDocument false None [] []) eq_refl)
    as (_ & H & _).
  apply H. vm_compute. right. left.
Defined.

(** The timers a batch adds: one per intersecting entry, in order. *)
Definition scheduled (d : Document) (entries : list IntersectionObserverEntry)
  : list Timer :=
  omap (λ entry, if isIntersecting entry
                 then (λ delay, mkTimer delay (target entry))
                        <$> getStaggerDelay d (target entry)
                 else None) entries.

Lemma handleEntry_document s entry s' :
  handleEntry s entry = Some s' → document s' = document s.
Proof.
  unfold handleEntry. destruct (isIntersecting entry); [|congruence].
  destruct (getStaggerDelay _ _); [|discriminate]. now intros [= <-].
Qed.

Lemma observed_unobserve s id i :
  observed (unobserve s id) i = observed s i && bool_decide (i ≠ id).
Proof.
  unfold observed, unobserve. cbn.
  destruct (observer s) as [targets|]; cbn; [|reflexivity].
  apply eq_true_iff_eq. rewrite andb_true_iff, !bool_decide_eq_true.
  rewrite list_elem_of_filter. tauto.
Qed.

(** X12: A batch of intersection entries whose targets all have a parent
    element is handled to the end; it reveals nothing itself (the
    document is untouched until a timer fires), adds one timer per
    intersecting entry, in the order of the entries, and takes exactly
    the intersecting targets out of the observer. *)
Theorem batch_schedules_one_timer_per_intersecting_entry
        (entries : list IntersectionObserverEntry) (s : State) :
  Forall (λ entry, is_Some (parentElement (document s) (target entry))) entries →
  ∃ s', handleIntersection entries s = (true, s') ∧
        document s' = document s ∧
        timers s' = (timers s ++ scheduled (document s) entries)%list ∧
        length (scheduled (document s) entries)
        = length (filter (λ entry, isIntersecting entry = true) entries) ∧
        ∀ id, observed s' id
              = observed s id &&
                bool_decide (id ∉ map target
                                    (filter (λ entry, isIntersecting entry = true) entries)).
Proof.
  revert s. induction entries as [|entry entries IH]; intros s Hall.
  - exists s. cbn. rewrite app_nil_r. repeat split.
    intros id. now rewrite andb_true_r.
  - apply Forall_cons in Hall as [[parent Hp] Hall].
    cbn [handleIntersection].
    destruct (isIntersecting entry) eqn:Hi.
    + destruct (handleEntry_intersecting s entry parent Hi Hp) as (s1 & H1 & Ht1 & _).
      rewrite H1.
      assert (Hd1 : document s1 = document s) by exact (handleEntry_document _ _ _ H1).
      destruct (IH s1) as (s' & Hrun & Hd & Ht & Hlen & Hobs).
      { now rewrite Hd1. }
      exists s'. split; [exact Hrun|]. rewrite Hd, Hd1 in *.
      split; [reflexivity|].
      assert (Hsch : scheduled (document s) (entry :: entries)
                     = mkTimer (indexOf (querySelectorAll (document s) selector parent)
                                        (target entry) * 100) (target entry)
                       :: scheduled (document s) entries).
      { unfold scheduled. cbn [omap list_omap]. rewrite Hi.
        unfold getStaggerDelay at 1. rewrite Hp. reflexivity. }
      split; [|split].
      * rewrite Ht, Ht1, Hsch, <- app_assoc. reflexivity.
      * rewrite Hsch, filter_cons_True by exact Hi. cbn [length]. now rewrite Hlen.
      * intros id. rewrite Hobs.
        assert (Es1 : s1 = unobserve (setTimeout s
                        (mkTimer (indexOf (querySelectorAll (document s) selector parent)
                                          (target entry) * 100) (target entry)))
                        (target entry)).
        { unfold handleEntry in H1. rewrite Hi in H1.
          unfold getStaggerDelay in H1. rewrite Hp in H1. congruence. }
        rewrite Es1, observed_unobserve.
        change (observed (setTimeout s _) id) with (observed s id).
        rewrite filter_cons_True by exact Hi. cbn [map].
        rewrite <- andb_assoc. f_equal.
        apply eq_true_iff_eq. rewrite andb_true_iff, !bool_decide_eq_true.
        rewrite not_elem_of_cons. tauto.
    + assert (H1 : handleEntry s entry = Some s)
        by (unfold handleEntry; now rewrite Hi).
      rewrite H1. destruct (IH s Hall) as (s' & Hrun & Hd & Ht & Hlen & Hobs).
      exists s'. split; [exact Hrun|]. split; [exact Hd|].
      assert (Hsch : scheduled (document s) (entry :: entries)
                     = scheduled (document s) entries).
      { unfold scheduled. cbn [omap list_omap]. now rewrite Hi. }
      rewrite Hsch, filter_cons_False by (rewrite Hi; discriminate).
      split; [exact Ht|]. split; [exact Hlen | exact Hobs].
Qed.

Lemma batch_schedules_one_timer_per_intersecting_entry_witness :
  ∃ s', handleIntersection [mkEntry 4 true; mkEntry 5 false; mkEntry 6 true] nestedState
        = (true, s') ∧
        timers s' = [mkTimer 0 4; mkTimer 200 6].
Proof.
  destruct (batch_schedules_one_timer_per_intersecting_entry
              [mkEntry 4 true; mkEntry 5 false; mkEntry 6 true] nestedState)
    as (s' & H1 & _ & H2 & _).
  - repeat constructor; vm_compute; eauto.
  - exists s'. split; [exact H1 | exact H2].
Defined.

End RevealLifecycle.

Section RevealEdges.

Import ScrollAnimations.

Lemma indexOf_absent l x : x ∉ l → indexOf l x = -1.
Proof.
  intros Hx. unfold indexOf.
  assert (E : list_find (λ y, y = x) l = None).
  { apply list_find_None. apply Forall_forall. intros y Hy ->. now apply Hx. }
  now rewrite E.
Qed.

(** X13: An observed element that no longer carries the class [fade-in] when
    it intersects is not in the list its position is looked up in:
    [indexOf] answers -1, nothing guards it, and the delay handed to
    [setTimeout] is -100. *)
Theorem stagger_delay_of_unmatched_element (d : Document) (id : nat) (parent : Tree) :
  parentElement d id = Some parent →
  matches d selector id = false →
  getStaggerDelay d id = Some (-100).
Proof.
  intros Hp Hm. unfold getStaggerDelay. rewrite Hp.
  rewrite indexOf_absent; [reflexivity|].
  unfold querySelectorAll. rewrite list_elem_of_filter. intros [Hm' _]. congruence.
Qed.

Lemma stagger_delay_of_unmatched_element_witness :
  getStaggerDelay (reveal (update nestedDocument 6 (λ e, classRemove e "fade-in")) 6) 6
  = Some (-100).
Proof.
  apply (stagger_delay_of_unmatched_element _ 6%nat (T 3 [T 4 [T 5 []]; T 6 []]));
    reflexivity.
Defined.

Lemma querySelectorAll_reveal d id scope :
  querySelectorAll (reveal d id) selector scope = querySelectorAll d selector scope.
Proof.
  unfold querySelectorAll. apply list_filter_iff. intros i.
  unfold reveal. rewrite matches_update; [reflexivity|].
  intros e. unfold selector. now rewrite hasClass_classAdd_other.
Qed.

(** X14: [reset] arms every element with the class [fade-in] again, the ones
    already revealed included: revealing adds [visible] and leaves
    [fade-in] in place, so an element that was revealed and taken out of
    the observer is observed anew after a reset.  The document and the
    pending timers are not touched. *)
Theorem reset_observes_revealed_elements_again (s : State) (t : Timer) (id : nat) :
  supportsIntersectionObserver s = true →
  id ∈ querySelectorAll (document s) selector (root (document s)) →
  observed (reset s) id = true ∧
  observed (unobserve (fire t s) id) id = false ∧
  observed (reset (unobserve (fire t s) id)) id = true ∧
  document (reset s) = document s ∧
  timers (reset s) = timers s.
Proof.
  intros Hsup Hin.
  assert (G : ∀ s0, supportsIntersectionObserver s0 = true →
                    id ∈ querySelectorAll (document s0) selector (root (document s0)) →
                    observed (reset s0) id = true ∧
                    document (reset s0) = document s0 ∧ timers (reset s0) = timers s0).
  { intros s0 H0 Hin0. unfold reset, init, disconnect.
    cbn [supportsIntersectionObserver setObserver document].
    rewrite H0. cbn [negb].
    destruct (querySelectorAll (document s0) selector (root (document s0)))
      as [|x l] eqn:Hq; [now apply elem_of_nil in Hin0|].
    rewrite bool_decide_eq_false_2 by discriminate.
    cbn. split; [|split; reflexivity].
    now apply bool_decide_eq_true. }
  destruct (G s Hsup Hin) as (H1 & H2 & H3).
  split; [exact H1|]. split; [apply unobserve_not_observed|].
  split; [|split; assumption].
  apply (G (unobserve (fire t s) id)); [exact Hsup|].
  cbn [document unobserve setObserver fire setDocument].
  change (update (document s) (element t) (λ e, classAdd e "visible"))
    with (reveal (document s) (element t)).
  rewrite querySelectorAll_reveal. cbn. exact Hin.
Qed.

Lemma reset_observes_revealed_elements_again_witness :
  observed (reset (unobserve (fire (mkTimer 200 6) nestedState) 6)) 6 = true.
Proof.
  destruct (reset_observes_revealed_elements_again nestedState (mkTimer 200 6) 6%nat eq_refl)
    as (_ & _ & H & _).
  - vm_compute. right. right. left.
  - exact H.
Defined.

(** X15: [animateElement] reveals an element by hand only when it carries the
    class [fade-in]; for [null], for a node the document does not know
    and for any other element it is a no-op.  It changes that one node
    and leaves the observer alone, so the element stays observed. *)
Theorem animateElement_reveals_fade_in_only (s : State) :
  animateElement s None = s ∧
  (∀ id, matches (document s) selector id = false → animateElement s (Some id) = s) ∧
  (∀ id e, props (document s) !! id = Some e → selector e = true →
     props (document (animateElement s (Some id))) !! id = Some (classAdd e "visible") ∧
     (∀ j, j ≠ id →
           props (document (animateElement s (Some id))) !! j = props (document s) !! j) ∧
     (∀ j, observed (animateElement s (Some id)) j = observed s j) ∧
     timers (animateElement s (Some id)) = timers s).
Proof.
  split; [reflexivity|]. split.
  - intros id Hm. unfold animateElement.
    change (λ e : Element, hasClass e "fade-in") with selector. now rewrite Hm.
  - intros id e He Hsel. unfold animateElement.
    change (λ e : Element, hasClass e "fade-in") with selector.
    assert (Hm : matches (document s) selector id = true)
      by (unfold matches; now rewrite He).
    rewrite Hm. unfold setDocument, update, observed. cbn.
    split; [|split; [|split; reflexivity]].
    + now rewrite lookup_alter_eq, He.
    + intros j Hj. now rewrite lookup_alter_ne.
Qed.

End RevealEdges.

(** ** Entry point: bootstrap and active link *)

Section Bootstrap.

Import App.

Lemma setLoaded_body s :
  hasClass (body (page (setLoaded s))) "loaded" = true ∧
  hasClass (body (page (setLoaded s))) "loading" = false.
Proof.
  unfold setLoaded, loadedClass, loadingClass. cbn [page body setBody]. split.
  - apply hasClass_classAdd_same.
  - rewrite hasClass_classAdd_other by discriminate.
    apply hasClass_classRemove_same.
Qed.

(** The icon pass throws: [lucide] is [null], or the call of
    [createIcons] throws. *)
Definition iconsThrow (l : Lucide) : bool :=
  match l with
  | Null | Library Throws => true
  | _ => false
  end.

(** The icon pass runs: [lucide.createIcons] is there and returns. *)
Definition iconsRun (l : Lucide) : bool :=
  match l with
  | Library Returns => true
  | _ => false
  end.

Lemma icons_state p :
  initIcons (setLoaded (start p))
  = (negb (iconsThrow (lucide p)),
     mkState (mkPage (classAdd (classRemove (body p) loadingClass) loadedClass)
                     (lucide p) (hasIntersectionObserver p)
                     (sections p) (navLinks p) (forms p))
             (if iconsRun (lucide p) then 1 else 0)%nat
             [] []
             (if iconsRun (lucide p) || iconsThrow (lucide p) then []
              else [(Warn, "Lucide icons library not loaded")])).
Proof.
  unfold initIcons, setLoaded, start, setBody, write. cbn.
  destruct (lucide p) as [| |[| |]]; reflexivity.
Qed.

(** X16: Where [IntersectionObserver] does not exist and the page has sections
    and navigation links, the ready callback stops in
    [initActiveNavigation] (or before it, in [initIcons], when the icon
    pass throws): the page is marked loaded, but the ready message is
    never logged, no section is observed and [FormHandler.init] is not
    reached, so no form is handled. *)
Theorem ready_stops_without_intersection_observer (p : Page) :
  hasIntersectionObserver p = false →
  sections p ≠ [] →
  navLinks p ≠ [] →
  fst (ready (start p)) = false ∧
  handledForms (snd (ready (start p))) = [] ∧
  observedSections (snd (ready (start p))) = [] ∧
  hasClass (body (page (snd (ready (start p))))) "loaded" = true ∧
  hasClass (body (page (snd (ready (start p))))) "loading" = false ∧
  (Log, "Total Care website initialized") ∉ console (snd (ready (start p))).
Proof.
  intros Hno Hs Hn.
  pose proof (setLoaded_body (start p)) as [Hl1 Hl2].
  unfold ready, init. rewrite icons_state.
  destruct (iconsThrow (lucide p)) eqn:Hthrow; cbn [negb].
  { rewrite orb_true_r. cbn.
    split; [reflexivity|]. split; [reflexivity|]. split; [reflexivity|].
    split; [exact Hl1|]. split; [exact Hl2|]. apply not_elem_of_nil. }
  unfold initActiveNavigation.
  cbn [page sections navLinks hasIntersectionObserver]. rewrite Hno.
  rewrite (bool_decide_eq_false_2 (length (sections p) = 0%nat))
    by (destruct (sections p); [congruence | discriminate]).
  rewrite (bool_decide_eq_false_2 (length (navLinks p) = 0%nat))
    by (destruct (navLinks p); [congruence | discriminate]).
  cbn. split; [reflexivity|]. split; [reflexivity|]. split; [reflexivity|].
  split; [exact Hl1|]. split; [exact Hl2|].
  rewrite orb_false_r.
  destruct (iconsRun (lucide p)); [apply not_elem_of_nil|].
  rewrite list_elem_of_singleton. discriminate.
Qed.

Definition landingPage (observerSupport : bool) (icons : Lucide) : Page :=
  mkPage (bareElement "body" ["loading"] [])
         icons observerSupport
         [section "home"; section "about"]
         [navLink "#home" []; navLink "#about" []]
         [bareElement "form" [] [("data-ajax", "")]; bareElement "form" [] []].

Lemma ready_stops_without_intersection_observer_witness :
  fst (ready (start (landingPage false (Library Returns)))) = false ∧
  handledForms (snd (ready (start (landingPage false (Library Returns))))) = [].
Proof.
  destruct (ready_stops_without_intersection_observer (landingPage false (Library Returns)))
    as (H1 & H2 & _).
  - reflexivity.
  - discriminate.
  - discriminate.
  - split; assumption.
Defined.

(** X17: With [IntersectionObserver] in place, or with no section or no
    navigation link to watch, the ready callback marks the body loaded
    and then depends on the icon pass alone.  If [lucide] is undefined,
    lacks [createIcons] or has one that returns, the callback runs to the
    end: the ready message is the last line logged, exactly the forms
    carrying [data-ajax] are handled, and a missing library costs one
    warning and nothing else.  If [lucide] is [null] or the call of
    [createIcons] throws, the callback stops in [initIcons]: nothing is
    logged, no section is observed and no form is handled. *)
Theorem ready_completes_icons_or_not (p : Page) :
  hasIntersectionObserver p = true ∨ sections p = [] ∨ navLinks p = [] →
  hasClass (body (page (snd (ready (start p))))) "loaded" = true ∧
  hasClass (body (page (snd (ready (start p))))) "loading" = false ∧
  (iconsThrow (lucide p) = false →
   fst (ready (start p)) = true ∧
   handledForms (snd (ready (start p)))
   = filter (λ f, hasDataAjax f = true) (forms p) ∧
   observedSections (snd (ready (start p)))
   = (if bool_decide (sections p = []) || bool_decide (navLinks p = [])
      then [] else sections p) ∧
   iconPasses (snd (ready (start p)))
   = (if iconsRun (lucide p) then 1 else 0)%nat ∧
   console (snd (ready (start p)))
   = ((if iconsRun (lucide p) then []
       else [(Warn, "Lucide icons library not loaded")]) ++
      [(Log, "Total Care website initialized")])%list) ∧
  (iconsThrow (lucide p) = true →
   fst (ready (start p)) = false ∧
   handledForms (snd (ready (start p))) = [] ∧
   observedSections (snd (ready (start p))) = [] ∧
   iconPasses (snd (ready (start p))) = 0%nat ∧
   console (snd (ready (start p))) = []).
Proof.
  intros Hok.
  pose proof (setLoaded_body (start p)) as [Hl1 Hl2].
  unfold ready, init. rewrite icons_state.
  destruct (iconsThrow (lucide p)) eqn:Hthrow; cbn [negb].
  { rewrite orb_true_r.
    assert (Hrun : iconsRun (lucide p) = false)
      by (destruct (lucide p) as [| |[| |]]; try discriminate; reflexivity).
    rewrite Hrun. cbn.
    split; [exact Hl1|]. split; [exact Hl2|]. split; [discriminate|].
    intros _. repeat split. }
  unfold initActiveNavigation.
  cbn [page sections navLinks hasIntersectionObserver].
  assert (Hlen : ∀ l : list Element,
            bool_decide (length l = 0%nat) = bool_decide (l = [])).
  { intros l. apply bool_decide_ext. destruct l; cbn; split; congruence. }
  rewrite !Hlen, orb_false_r.
  destruct (bool_decide (sections p = []) || bool_decide (navLinks p = [])) eqn:He.
  { cbn. split; [exact Hl1|]. split; [exact Hl2|]. split; [|discriminate].
    intros _. repeat split. }
  destruct Hok as [Hio | Hempty].
  - rewrite Hio. cbn. split; [exact Hl1|]. split; [exact Hl2|].
    split; [|discriminate]. intros _. repeat split.
  - apply orb_false_iff in He as [He1 He2].
    apply bool_decide_eq_false in He1, He2. tauto.
Qed.

Lemma ready_completes_icons_or_not_witness :
  (fst (ready (start (landingPage true Undefined))) = true ∧
   console (snd (ready (start (landingPage true Undefined))))
   = [(Warn, "Lucide icons library not loaded");
      (Log, "Total Care website initialized")]) ∧
  (fst (ready (start (landingPage true Null))) = false ∧
   handledForms (snd (ready (start (landingPage true Null)))) = []).
Proof.
  split.
  - destruct (ready_completes_icons_or_not (landingPage true Undefined))
      as (_ & _ & H & _); [left; reflexivity|].
    destruct (H eq_refl) as (H1 & _ & _ & _ & H2).
    split; [exact H1 | exact H2].
  - destruct (ready_completes_icons_or_not (landingPage true Null))
      as (_ & _ & _ & H); [left; reflexivity|].
    destruct (H eq_refl) as (H1 & H2 & _).
    split; [exact H1 | exact H2].
Defined.

End Bootstrap.

Section ActiveLinkUpdates.

Import App.

Lemma classRemove_twice e t : classRemove (classRemove e t) t = classRemove e t.
Proof. apply classRemove_absent, hasClass_classRemove_same. Qed.

(** X18: An active-link update changes one thing, the active class: the list
    of links keeps its length and order, every link keeps its tag, its
    attributes, its text and every other class, and repeating the update
    for the same section changes nothing more. *)
Theorem active_update_touches_only_marker
        (sectionId : option string) (links : list Element) :
  length (setActiveNavLink sectionId links) = length links ∧
  (∀ i link, links !! i = Some link →
     ∃ link', setActiveNavLink sectionId links !! i = Some link' ∧
              tagName link' = tagName link ∧
              attributes link' = attributes link ∧
              textContent link' = textContent link ∧
              ∀ t, t ≠ activeClass → hasClass link' t = hasClass link t) ∧
  setActiveNavLink sectionId (setActiveNavLink sectionId links)
  = setActiveNavLink sectionId links.
Proof.
  split; [|split].
  - unfold setActiveNavLink. apply length_map.
  - intros i link Hi. unfold setActiveNavLink.
    change (map ?f links) with (f <$> links).
    rewrite list_lookup_fmap, Hi. cbn [fmap option_fmap option_map].
    eexists. split; [reflexivity|].
    case_bool_decide; repeat split; intros t Ht.
    + now apply hasClass_classAdd_other.
    + now apply hasClass_classRemove_other.
  - unfold setActiveNavLink. rewrite map_map. apply map_ext. intros link.
    cbn beta.
    destruct (bool_decide (getAttribute link "href"
                           = Some ("#" ++ interpolate sectionId))) eqn:Hh.
    + change (getAttribute (classAdd link activeClass) "href")
        with (getAttribute link "href").
      rewrite Hh. apply classAdd_twice.
    + change (getAttribute (classRemove link activeClass) "href")
        with (getAttribute link "href").
      rewrite Hh. apply classRemove_twice.
Qed.

(** X19: Entries of sections that are not intersecting do nothing: when the
    highlighted section leaves the band and no section enters it, the
    links are left as they are and the last highlight stays. *)
Theorem active_link_stays_without_intersection
        (entries : list IntersectionObserverEntry) (links : list Element) :
  Forall (λ entry, isIntersecting entry = false) entries →
  onIntersection entries links = links.
Proof.
  induction 1 as [|entry entries He _ IH]; [reflexivity|].
  unfold onIntersection in *. cbn [foldl]. now rewrite He.
Qed.

Lemma active_link_stays_without_intersection_witness :
  onIntersection [mkEntry (section "home") false; mkEntry (section "about") false]
                 [navLink "#home" [activeClass]; navLink "#about" []]
  = [navLink "#home" [activeClass]; navLink "#about" []].
Proof.
  apply (active_link_stays_without_intersection
           [mkEntry (section "home") false; mkEntry (section "about") false]).
  repeat constructor.
Defined.

End ActiveLinkUpdates.

(** ** Utilities: debounce, throttle, viewport test *)

Section DebounceThrottle.

Import Utils.

Context {A : Type}.

(** A delay that fits [setTimeout] is taken as it is. *)
Lemma timerDelay_in_range ms : 0 ≤ ms < 2147483648 → timerDelay ms = ms.
Proof.
  intros H. unfold timerDelay, toInt32.
  rewrite Z.mod_small by lia. lia.
Qed.

Lemma timerDelay_nonneg ms : 0 ≤ timerDelay ms.
Proof. unfold timerDelay. lia. Qed.

(** A burst: a first call, then further calls, each after a gap. *)
Definition burst (first : A) (rest : list (Z * A)) : list (Input A) :=
  Call first :: flat_map (λ '(gap, args), [Elapse gap; Call args]) rest.

Definition lastArgs (first : A) (rest : list (Z * A)) : A :=
  List.last (map snd rest) first.

Definition totalGap (rest : list (Z * A)) : Z :=
  foldr Z.add 0 (map fst rest).

Lemma last_cons_default (l : list A) : ∀ x a, List.last (x :: l) a = List.last l x.
Proof.
  induction l as [|y l IH]; intros x a; [reflexivity|].
  change (List.last (x :: y :: l) a) with (List.last (y :: l) a).
  now rewrite (IH y a), (IH y x).
Qed.

Lemma debounce_gaps wait (rest : list (Z * A)) : ∀ (d : Debounced A) (a : A),
  timeout d = Some (now d + timerDelay wait, a) →
  Forall (λ '(gap, _), 0 ≤ gap < timerDelay wait) rest →
  let d' := debounce_run wait
              (flat_map (λ '(gap, args), [Elapse gap; Call args]) rest) d in
  now d' = now d + totalGap rest ∧
  timeout d' = Some (now d' + timerDelay wait, lastArgs a rest) ∧
  invoked d' = invoked d.
Proof.
  induction rest as [|[gap args] rest IH]; intros d a Hd Hall.
  - cbn. unfold totalGap. cbn. rewrite Z.add_0_r. auto.
  - apply Forall_cons in Hall as [Hgap Hall].
    unfold debounce_run in *. cbn [flat_map app foldl debounce_step].
    assert (E : debounce_call wait args (debounce_elapse gap d)
                = mkDebounced (now d + gap)
                              (Some (now d + gap + timerDelay wait, args)) (invoked d)).
    { unfold debounce_elapse. rewrite Hd.
      destruct (Z.leb_spec (now d + timerDelay wait) (now d + gap)); [lia|].
      reflexivity. }
    rewrite E.
    destruct (IH (mkDebounced (now d + gap)
                              (Some (now d + gap + timerDelay wait, args)) (invoked d))
                 args eq_refl Hall) as (H1 & H2 & H3).
    cbn [now invoked] in H1, H3.
    split; [|split].
    + rewrite H1. unfold totalGap. cbn. lia.
    + rewrite H2. f_equal. f_equal. unfold lastArgs. cbn [map snd].
      symmetry. apply last_cons_default.
    + exact H3.
Qed.

(** X20: A debounced function called in a burst, each call less than the
    timer delay after the one before, and then left alone (no call, from
    the wrapped function or anyone else) for at least that delay, runs
    the wrapped function exactly once: with the arguments of the last
    call, one delay after that call.  The delay is [wait] as
    [setTimeout] takes it: [wait] itself from 0 up to 2^31 - 1, and 0 for
    a negative [wait].  Whatever timer was pending before the burst is
    cancelled by its first call. *)
Theorem debounce_burst_runs_once_with_last_args
        (wait quiet : Z) (first : A) (rest : list (Z * A)) (d : Debounced A) :
  Forall (λ '(gap, _), 0 ≤ gap < timerDelay wait) rest →
  timerDelay wait ≤ quiet →
  let d' := debounce_run wait (burst first rest ++ [Elapse quiet]) d in
  invoked d'
  = (invoked d ++ [(now d + totalGap rest + timerDelay wait, lastArgs first rest)])%list ∧
  timeout d' = None ∧
  now d' = now d + totalGap rest + quiet ∧
  (0 ≤ wait < 2147483648 → timerDelay wait = wait) ∧
  (-2147483648 ≤ wait < 0 → timerDelay wait = 0).
Proof.
  intros Hall Hq d'. subst d'. unfold debounce_run, burst.
  rewrite <- app_comm_cons. cbn [foldl]. rewrite foldl_app.
  cbn [foldl debounce_step].
  destruct (debounce_gaps wait rest (debounce_call wait first d) first eq_refl Hall)
    as (H1 & H2 & H3).
  unfold debounce_run in H1, H2, H3. cbn [now invoked debounce_call] in H1, H3.
  set (d1 := foldl (debounce_step wait) (debounce_call wait first d) _) in *.
  unfold debounce_elapse. rewrite H2.
  destruct (Z.leb_spec (now d1 + timerDelay wait) (now d1 + quiet)); [|lia].
  cbn [invoked timeout now]. rewrite H1, H3.
  split; [reflexivity|]. split; [reflexivity|]. split; [reflexivity|].
  split; [apply timerDelay_in_range|].
  intros Hneg. unfold timerDelay, toInt32.
  replace (wait + 2147483648) with (wait + 2147483648 + 0) by lia.
  rewrite Z.mod_small by lia. lia.
Qed.

(** Consecutive times at least [limit] apart. *)
Fixpoint spaced (limit : Z) (times : list Z) : Prop :=
  match times with
  | t1 :: ((t2 :: _) as later) => t1 + limit ≤ t2 ∧ spaced limit later
  | _ => True
  end.

Lemma spaced_snoc limit times t :
  spaced limit times →
  (∀ t0, last times = Some t0 → t0 + limit ≤ t) →
  spaced limit (times ++ [t]).
Proof.
  induction times as [|t1 times IH]; intros Hs Hl; [exact I|].
  destruct times as [|t2 times].
  - cbn. split; [|exact I]. now apply Hl.
  - destruct Hs as [H12 Hs]. cbn [app spaced]. split; [exact H12|].
    apply IH; [exact Hs|]. intros t0 Ht0. apply Hl.
    now rewrite last_cons_cons.
Qed.

(** The wrapped function returns without calling the wrapper. *)
Definition returns (i : Invocation A) : Prop :=
  match i with
  | Invoke _ body => body = Return
  | Wait _ => True
  end.

(** The wrapped function throws at once. *)
Definition throws (i : Invocation A) : Prop :=
  match i with
  | Invoke _ body => body = Throw
  | Wait _ => True
  end.

Definition forward (i : Invocation A) : Prop :=
  match i with
  | Invoke _ _ => True
  | Wait dt => 0 ≤ dt
  end.

(** What [throttle_run] keeps true while the function returns. *)
Definition throttle_inv (limit : Z) (t : Throttled A) : Prop :=
  spaced (timerDelay limit) (map fst (passed t)) ∧
  if inThrottle t
  then ∃ u, resets t = [u] ∧
            last (map fst (passed t)) = Some (u - timerDelay limit)
  else resets t = [] ∧
       ∀ t0, last (map fst (passed t)) = Some t0 → t0 + timerDelay limit ≤ clock t.

Lemma throttle_call_return limit args (t : Throttled A) :
  snd (throttle_call limit args Return t)
  = if inThrottle t then t else raise limit (ran args t).
Proof.
  unfold throttle_call, guarded. now destruct (inThrottle t).
Qed.

Lemma throttle_step_inv limit (t : Throttled A) (i : Invocation A) :
  forward i → returns i →
  throttle_inv limit t → throttle_inv limit (throttle_step limit t i).
Proof.
  intros Hi Hret [Hs Hflag]. destruct i as [args body|dt]; cbn [throttle_step].
  - cbn in Hret. subst body. rewrite throttle_call_return.
    destruct (inThrottle t) eqn:Hin.
    + split; [exact Hs|]. now rewrite Hin.
    + destruct Hflag as [Hr Hlast]. split; cbn.
      * rewrite map_app. cbn. now apply spaced_snoc.
      * exists (clock t + timerDelay limit). rewrite Hr. split; [reflexivity|].
        rewrite map_app. cbn [map fst]. rewrite last_snoc. f_equal. lia.
  - unfold throttle_elapse. split; [exact Hs|]. cbn. cbn in Hi.
    destruct (inThrottle t) eqn:Hin.
    + destruct Hflag as (u & Hr & Hlast). rewrite Hr.
      rewrite !filter_cons, !filter_nil.
      destruct (decide (u ≤ clock t + dt)) as [Hu|Hu].
      * rewrite decide_False by tauto. cbn.
        split; [reflexivity|]. intros t0 Ht0. rewrite Hlast in Ht0.
        injection Ht0 as <-. lia.
      * rewrite decide_True by exact Hu. cbn. eauto.
    + destruct Hflag as [Hr Hlast]. rewrite Hr. cbn.
      split; [reflexivity|]. intros t0 Ht0. specialize (Hlast t0 Ht0). lia.
Qed.

Lemma throttle_run_inv limit (inputs : list (Invocation A)) : ∀ t : Throttled A,
  Forall forward inputs → Forall returns inputs →
  throttle_inv limit t → throttle_inv limit (throttle_run limit inputs t).
Proof.
  induction inputs as [|i inputs IH]; intros t Hfw Hret Hinv; [exact Hinv|].
  apply Forall_cons in Hfw as [Hi Hfw]. apply Forall_cons in Hret as [Hr Hret].
  unfold throttle_run in *. cbn [foldl]. apply IH; [exact Hfw | exact Hret|].
  now apply throttle_step_inv.
Qed.

(** The runs are among the calls, each at the time of its call. *)
Lemma throttle_run_sublist limit (inputs : list (Invocation A)) : ∀ t : Throttled A,
  Forall returns inputs →
  ∃ runs, passed (throttle_run limit inputs t) = (passed t ++ runs)%list ∧
          runs `sublist_of` timedCalls (clock t) inputs.
Proof.
  induction inputs as [|i inputs IH]; intros t Hret.
  - exists []. cbn. now rewrite app_nil_r.
  - apply Forall_cons in Hret as [Hr Hret].
    unfold throttle_run in *. cbn [foldl].
    destruct i as [args body|dt]; cbn [throttle_step timedCalls].
    + cbn in Hr. subst body. rewrite throttle_call_return.
      destruct (inThrottle t).
      * destruct (IH t Hret) as (runs & Hp & Hsub).
        exists runs. split; [exact Hp|]. now constructor.
      * destruct (IH (raise limit (ran args t)) Hret) as (runs & Hp & Hsub).
        exists ((clock t, args) :: runs). cbn in Hp, Hsub.
        split; [now rewrite Hp, <- app_assoc|]. now constructor.
    + destruct (IH (throttle_elapse dt t) Hret) as (runs & Hp & Hsub).
      exists runs. split; [exact Hp | exact Hsub].
Qed.

(** A function that throws never raises the flag: every call runs it. *)
Lemma throttle_run_throws limit (inputs : list (Invocation A)) : ∀ t : Throttled A,
  Forall throws inputs →
  inThrottle t = false → resets t = [] →
  passed (throttle_run limit inputs t)
  = (passed t ++ timedCalls (clock t) inputs)%list ∧
  inThrottle (throttle_run limit inputs t) = false.
Proof.
  induction inputs as [|i inputs IH]; intros t Hthr Hflag Hres.
  - cbn. now rewrite app_nil_r.
  - apply Forall_cons in Hthr as [Hi Hthr].
    unfold throttle_run in *. cbn [foldl].
    destruct i as [args body|dt]; cbn [throttle_step timedCalls].
    + cbn in Hi. subst body.
      assert (E : snd (throttle_call limit args Throw t) = ran args t)
        by (unfold throttle_call, guarded; now rewrite Hflag).
      rewrite E. destruct (IH (ran args t) Hthr Hflag Hres) as [Hp Hf].
      split; [|exact Hf]. rewrite Hp. cbn. now rewrite <- app_assoc.
    + assert (Hf' : inThrottle (throttle_elapse dt t) = false)
        by (unfold throttle_elapse; cbn; rewrite Hres, Hflag; reflexivity).
      assert (Hr' : resets (throttle_elapse dt t) = [])
        by (unfold throttle_elapse; cbn; now rewrite Hres).
      destruct (IH (throttle_elapse dt t) Hthr Hf' Hr') as [Hp Hf].
      split; [exact Hp | exact Hf].
Qed.

(** X21: A throttled function whose wrapped function returns (without
    calling the wrapper itself) lets the first call through at once and
    then at most one call per timer delay: two successive runs are at
    least that delay apart, and every run is one of the calls, made at
    the time of that call with its arguments, so a call arriving while
    the flag is up is dropped, never postponed.  The wrapper calls the
    function before it raises the flag: a wrapped function that throws
    leaves the flag down and is run by every call, and one that calls the
    wrapper itself is run again at the same instant. *)
Theorem throttle_runs_are_limit_apart
        (limit start : Z) (inputs : list (Invocation A)) :
  Forall forward inputs →
  (Forall returns inputs →
   spaced (timerDelay limit)
          (map fst (passed (throttle_run limit inputs (mkThrottled start false [] [])))) ∧
   passed (throttle_run limit inputs (mkThrottled start false [] []))
   `sublist_of` timedCalls start inputs ∧
   (∀ args rest,
       inputs = Invoke args Return :: rest →
       head (passed (throttle_run limit inputs (mkThrottled start false [] [])))
       = Some (start, args)) ∧
   (∀ (t : Throttled A) (args : A),
       inThrottle t = true → throttle_call limit args Return t = (true, t))) ∧
  (Forall throws inputs →
   passed (throttle_run limit inputs (mkThrottled start false [] []))
   = timedCalls start inputs) ∧
  (∀ outer inner : A,
      passed (snd (throttle_call limit outer (Reenter inner Return Return)
                                 (mkThrottled start false [] [])))
      = [(start, outer); (start, inner)]).
Proof.
  intros Hfw. split; [|split].
  - intros Hret. split; [|split; [|split]].
    + apply (throttle_run_inv limit inputs (mkThrottled start false [] []) Hfw Hret).
      split; [exact I|]. cbn. split; [reflexivity | discriminate].
    + destruct (throttle_run_sublist limit inputs (mkThrottled start false [] []) Hret)
        as (runs & Hp & Hsub).
      rewrite Hp. exact Hsub.
    + intros args rest ->. apply Forall_cons in Hret as [_ Hret].
      unfold throttle_run. cbn [foldl throttle_step].
      rewrite throttle_call_return. cbn [inThrottle].
      destruct (throttle_run_sublist limit rest
                  (raise limit (ran args (mkThrottled start false [] []))) Hret)
        as (runs & Hp & _).
      unfold throttle_run in Hp. rewrite Hp. reflexivity.
    + intros t args Hin. unfold throttle_call, guarded. now rewrite Hin.
  - intros Hthr.
    destruct (throttle_run_throws limit inputs (mkThrottled start false [] [])
                Hthr eq_refl eq_refl) as [Hp _].
    exact Hp.
  - intros outer inner. reflexivity.
Qed.

End DebounceThrottle.

Section TimingExamples.

Import Utils.

Lemma debounce_burst_runs_once_with_last_args_witness :
  invoked (debounce_run 100
             (burst "a" [(30, "ab"); (99, "abc")] ++ [Elapse 100])
             (mkDebounced 0 None []))
  = [(229, "abc")].
Proof.
  refine (proj1 (@debounce_burst_runs_once_with_last_args string
                   100 100 "a" [(30, "ab"); (99, "abc")]
                   (mkDebounced 0 None []) _ _)).
  - repeat constructor; vm_compute; congruence.
  - vm_compute. congruence.
Defined.

Lemma throttle_runs_are_limit_apart_witness :
  passed (throttle_run 100
            [Invoke "a" Return; Wait 40; Invoke "b" Return; Wait 60;
             Invoke "c" Return; Wait 10; Invoke "d" Return]
            (mkThrottled 0 false [] []))
  `sublist_of` [(0, "a"); (40, "b"); (100, "c"); (110, "d")].
Proof.
  refine (proj1 (proj2 (proj1 (@throttle_runs_are_limit_apart string 100 0
                   [Invoke "a" Return; Wait 40; Invoke "b" Return; Wait 60;
                    Invoke "c" Return; Wait 10; Invoke "d" Return] _) _))).
  - repeat constructor; cbn; lia.
  - repeat constructor.
Defined.

End TimingExamples.

Section ViewportTest.

Import Utils.

(** X22: [isInViewport] asks for the whole rectangle to be inside the
    viewport, so an element taller than the viewport is never reported in
    view, however much of the screen it covers.  The height used is
    [innerHeight], or [clientHeight] when [innerHeight] is 0. *)
Theorem taller_than_viewport_never_in_view
        (rect : Rect) (innerHeight clientHeight innerWidth clientWidth : Z) :
  orElse innerHeight clientHeight < bottom rect - top rect →
  isInViewport rect innerHeight clientHeight innerWidth clientWidth = false.
Proof.
  intros Htall. unfold isInViewport.
  destruct (Z.leb_spec 0 (top rect)) as [Ht|Ht]; [|reflexivity].
  destruct (Z.leb_spec (bottom rect) (orElse innerHeight clientHeight)) as [Hb|Hb].
  - exfalso. lia.
  - cbn. now rewrite andb_false_r.
Qed.

Lemma taller_than_viewport_never_in_view_witness :
  isInViewport (mkRect 0 0 900 300) 0 800 1200 1200 = false.
Proof.
  apply (taller_than_viewport_never_in_view (mkRect 0 0 900 300) 0 800 1200 1200).
  vm_compute. reflexivity.
Defined.

End ViewportTest.

(** ** Form handler: outcomes and message timers *)

Section FormOutcomes.

Import FormHandler.

Lemma removeNode_absent id t : id ∉ nodeIds t → removeNode id t = t.
Proof.
  induction t as [i ks IH] using Tree_ind'. cbn [nodeIds removeNode].
  rewrite not_elem_of_cons. intros [Hne Hin]. f_equal.
  induction IH as [|k ks Hk _ IHks]; [reflexivity|].
  cbn [map concat] in Hin. rewrite elem_of_app in Hin.
  cbn [map]. rewrite filter_cons.
  rewrite Hk by tauto. rewrite IHks by tauto.
  destruct (decide (tid k ≠ id)) as [_|Heq]; [reflexivity|].
  assert (Hid : tid k = id) by (destruct (decide (tid k = id)); tauto).
  exfalso. apply Hin. left. rewrite nodeIds_unfold, Hid. left.
Qed.

Lemma filter_removeNode_only (P : nat → Prop) `{!∀ i, Decision (P i)} id t :
  filter P (descendants t) = [id] →
  filter P (descendants (removeNode id t)) = [].
Proof.
  intros Hq.
  pose proof (filter_sublist_mono P _ _ (descendants_removeNode_sublist id t)) as Hs.
  rewrite Hq in Hs.
  destruct (filter P (descendants (removeNode id t))) as [|x l] eqn:Hf; [reflexivity|].
  assert (Hx : x ∈ [id]) by (eapply elem_of_sublist; [left | exact Hs]).
  apply list_elem_of_singleton in Hx. subst x.
  assert (Hin : id ∈ filter P (descendants (removeNode id t)))
    by (rewrite Hf; left).
  apply list_elem_of_filter in Hin. destruct Hin as [_ Hin].
  now apply descendants_removeNode_gone in Hin.
Qed.

Lemma tid_appendChild t c : tid (appendChild t c) = tid t.
Proof. now destruct t. Qed.

Lemma showMessage_root type message s :
  root (form (showMessage type message s))
  = appendChild match head (messages s) with
                | Some id => removeNode id (root (form s))
                | None => root (form s)
                end (nextNode s).
Proof.
  unfold showMessage, messages, querySelector. cbn.
  destruct (head _); reflexivity.
Qed.

Lemma showMessage_node type message s :
  props (form (showMessage type message s)) !! nextNode s
  = Some (setTextContent
            (bareElement "div"
               (["form-message"; "mt-4"; "p-4"; "rounded"] ++
                (if bool_decide (type = "success")
                 then ["bg-green-100"; "text-green-700"]
                 else ["bg-red-100"; "text-red-700"]))%list []) message).
Proof. unfold showMessage. cbn. apply lookup_insert_eq. Qed.

Lemma prologue_tidy s : tidy s → tidy (snd (handleSubmit_prologue s)).
Proof.
  intros Ht. unfold handleSubmit_prologue. cbn [snd].
  eapply tidy_same_form; [reflexivity..|]. now apply tidy_withButton.
Qed.

Lemma querySelector_allocated s sel b :
  allocated s →
  querySelector (form s) sel (root (form s)) = Some b → (b < nextNode s)%nat.
Proof.
  unfold allocated, querySelector, querySelectorAll. intros Ha Hq.
  apply head_Some in Hq as [l Hl].
  assert (Hin : b ∈ filter (λ i, matches (form s) sel i = true)
                           (descendants (root (form s))))
    by (rewrite Hl; left).
  apply list_elem_of_filter in Hin as [_ Hin].
  rewrite Forall_forall in Ha. apply Ha. rewrite nodeIds_unfold. now right.
Qed.

Definition successText : string := "Thank you! We'll be in touch soon.".
Definition errorText : string := "Something went wrong. Please try again.".

(** The node [n] of the form is a message with this text, carrying the
    class [good] and not the class [bad]. *)
Definition shows (s : State) (n : nat) (text good bad : string) : Prop :=
  ∃ e, props (form s) !! n = Some e ∧ textContent e = text ∧
       hasClass e good = true ∧ hasClass e bad = false.

(** What a submission started in [s] has left in [s']: the one message,
    the values of the fields, the timers added and the lines logged. *)
Definition leaves (s s' : State) (message : nat) (text good bad : string)
           (fields : gmap string string) (added : list Timer)
           (logged : list string) : Prop :=
  messages s' = [message] ∧
  shows s' message text good bad ∧
  values s' = fields ∧
  timers s' = (timers s ++ added)%list ∧
  console s' = (console s ++ logged)%list.

(** How the resumed call completes: normally, unless the [catch] block
    itself throws. *)
Definition completion (o : Outcome) : Completion :=
  match awaitThrows o, showSuccessThrows o, resetThrows o with
  | None, None, None => Normal
  | _, _, _ =>
      match showErrorThrows o with
      | Some e => Throw e
      | None => Normal
      end
  end.

Lemma resume_completion k o s : fst (handleSubmit_resume k o s) = completion o.
Proof. destruct o as [[?|] [?|] [?|] [?|]]; reflexivity. Qed.

Lemma withButton_frame btn g (y : State) n :
  (∀ b, btn = Some b → b ≠ n) →
  (∀ e, classList (g e) = classList e) →
  messages (withButton btn g y) = messages y ∧
  props (form (withButton btn g y)) !! n = props (form y) !! n ∧
  values (withButton btn g y) = values y ∧
  timers (withButton btn g y) = timers y ∧
  console (withButton btn g y) = console y.
Proof.
  intros Hne Hg. split; [now apply messages_withButton|].
  destruct btn as [b|]; [|repeat split].
  unfold withButton, update. cbn. repeat split.
  apply lookup_alter_ne. now apply Hne.
Qed.

Lemma showMessage_shows_success s :
  shows (showMessage "success" successText s) (nextNode s)
        successText "bg-green-100" "bg-red-100".
Proof.
  unfold shows. rewrite showMessage_node. eexists. split; [reflexivity|].
  repeat split.
Qed.

Lemma showMessage_shows_error s :
  shows (showMessage "error" errorText s) (nextNode s)
        errorText "bg-red-100" "bg-green-100".
Proof.
  unfold shows. rewrite showMessage_node. eexists. split; [reflexivity|].
  repeat split.
Qed.

(** X23: What one submission leaves behind, started on a form with at
    most one message.  If nothing throws: the one message of the form is
    the green thank-you message, the fields are back at their defaults,
    one 5-second timer is added.  If the awaited promise rejects or the
    success message cannot be shown: the one message is the red fixed
    apology (the thrown error is logged, not shown), the fields keep what
    the user typed, one timer is added.  If [form.reset()] throws after
    the success message is up: the [catch] block replaces that message by
    the red one, the fields keep their values, and two timers are
    pending.  In these cases the handler completes normally; if the
    [catch] block itself throws, that error leaves the handler, the
    fields keep their values and at most one message is up. *)
Theorem submission_outcome (s : State) (o : Outcome) :
  tidy s →
  (awaitThrows o = None → showSuccessThrows o = None → resetThrows o = None →
   fst (handleSubmit o s) = Normal ∧
   leaves s (snd (handleSubmit o s)) (nextNode s)
          successText "bg-green-100" "bg-red-100"
          (defaults s) [mkTimer 5000 (nextNode s)] ["Form data:"]) ∧
  (is_Some (awaitThrows o) ∨ is_Some (showSuccessThrows o) →
   showErrorThrows o = None →
   fst (handleSubmit o s) = Normal ∧
   leaves s (snd (handleSubmit o s)) (nextNode s)
          errorText "bg-red-100" "bg-green-100"
          (values s) [mkTimer 5000 (nextNode s)]
          ["Form data:"; "Form submission error:"]) ∧
  (awaitThrows o = None → showSuccessThrows o = None →
   is_Some (resetThrows o) → showErrorThrows o = None →
   fst (handleSubmit o s) = Normal ∧
   leaves s (snd (handleSubmit o s)) (S (nextNode s))
          errorText "bg-red-100" "bg-green-100"
          (values s)
          [mkTimer 5000 (nextNode s); mkTimer 5000 (S (nextNode s))]
          ["Form data:"; "Form submission error:"]) ∧
  (∀ e, showErrorThrows o = Some e →
        is_Some (awaitThrows o) ∨ is_Some (showSuccessThrows o)
        ∨ is_Some (resetThrows o) →
        fst (handleSubmit o s) = Throw e ∧
        values (snd (handleSubmit o s)) = values s ∧
        (length (messages (snd (handleSubmit o s))) ≤ 1)%nat).
Proof.
  intros Ht.
  pose proof (prologue_tidy s Ht) as Ht1.
  unfold handleSubmit.
  destruct (handleSubmit_prologue s) as [btn s1] eqn:Hp.
  cbn [snd] in Ht1.
  assert (Hbtn : btn = querySelector (form s) isSubmitButton (root (form s)))
    by (unfold handleSubmit_prologue in Hp; congruence).
  assert (Es1 : s1 = log (withButton btn
                            (λ e, setTextContent (setDisabled e true) "Sending...") s)
                         "Form data:")
    by (unfold handleSubmit_prologue in Hp; congruence).
  assert (Hs1 : nextNode s1 = nextNode s ∧ values s1 = values s ∧
                defaults s1 = defaults s ∧ timers s1 = timers s ∧
                console s1 = (console s ++ ["Form data:"])%list)
    by (rewrite Es1; destruct btn; repeat split).
  destruct Hs1 as (Hn1 & Hv1 & Hd1 & Htm1 & Hc1).
  assert (Hlt : ∀ b, btn = Some b → (b < nextNode s)%nat).
  { intros b Hb. rewrite Hbtn in Hb.
    exact (querySelector_allocated s _ b (proj1 Ht) Hb). }
  assert (Hframe : ∀ y n, (nextNode s ≤ n)%nat →
            messages (withButton btn (λ e, setTextContent (setDisabled e false) "Submit") y)
            = messages y ∧
            props (form (withButton btn
                           (λ e, setTextContent (setDisabled e false) "Submit") y)) !! n
            = props (form y) !! n ∧
            values (withButton btn (λ e, setTextContent (setDisabled e false) "Submit") y)
            = values y ∧
            timers (withButton btn (λ e, setTextContent (setDisabled e false) "Submit") y)
            = timers y ∧
            console (withButton btn (λ e, setTextContent (setDisabled e false) "Submit") y)
            = console y).
  { intros y n Hn. apply withButton_frame; [|reflexivity].
    intros b Hb. specialize (Hlt b Hb). lia. }
  rewrite resume_completion, resume_state. cbn [submitBtn].
  (* the three states the try and catch blocks can leave *)
  assert (Hthrough :
            leaves s (withButton btn (λ e, setTextContent (setDisabled e false) "Submit")
                        (resetForm (showMessage "success" successText s1)))
                   (nextNode s) successText "bg-green-100" "bg-red-100"
                   (defaults s) [mkTimer 5000 (nextNode s)] ["Form data:"]).
  { destruct (Hframe (resetForm (showMessage "success" successText s1)) (nextNode s))
      as (Hm & Hp' & Hv & Htm & Hc); [lia|].
    unfold leaves, shows. rewrite Hm, Hp', Hv, Htm, Hc.
    split; [|split; [|split; [|split]]].
    - change (messages (showMessage "success" successText s1) = [nextNode s]).
      rewrite <- Hn1. now apply showMessage_tidy.
    - rewrite <- Hn1. exact (showMessage_shows_success s1).
    - cbn. exact Hd1.
    - cbn. now rewrite Htm1, Hn1.
    - cbn. exact Hc1. }
  assert (Hcaught :
            leaves s (withButton btn (λ e, setTextContent (setDisabled e false) "Submit")
                        (caught None s1))
                   (nextNode s) errorText "bg-red-100" "bg-green-100"
                   (values s) [mkTimer 5000 (nextNode s)]
                   ["Form data:"; "Form submission error:"]).
  { destruct (Hframe (caught None s1) (nextNode s)) as (Hm & Hp' & Hv & Htm & Hc); [lia|].
    unfold leaves, shows. rewrite Hm, Hp', Hv, Htm, Hc. unfold caught.
    split; [|split; [|split; [|split]]].
    - rewrite <- Hn1.
      change (nextNode s1) with (nextNode (log s1 "Form submission error:")).
      apply showMessage_tidy. eapply tidy_same_form; [reflexivity..|exact Ht1].
    - rewrite <- Hn1.
      exact (showMessage_shows_error (log s1 "Form submission error:")).
    - cbn. exact Hv1.
    - cbn. now rewrite Htm1, Hn1.
    - cbn. rewrite Hc1, <- app_assoc. reflexivity. }
  assert (Hreset :
            leaves s (withButton btn (λ e, setTextContent (setDisabled e false) "Submit")
                        (caught None (showMessage "success" successText s1)))
                   (S (nextNode s)) errorText "bg-red-100" "bg-green-100"
                   (values s)
                   [mkTimer 5000 (nextNode s); mkTimer 5000 (S (nextNode s))]
                   ["Form data:"; "Form submission error:"]).
  { destruct (Hframe (caught None (showMessage "success" successText s1))
                     (S (nextNode s))) as (Hm & Hp' & Hv & Htm & Hc); [lia|].
    unfold leaves, shows. rewrite Hm, Hp', Hv, Htm, Hc. unfold caught.
    pose proof (proj2 (showMessage_tidy "success" successText s1 Ht1)) as Ht2.
    split; [|split; [|split; [|split]]].
    - rewrite <- Hn1.
      change (S (nextNode s1))
        with (nextNode (log (showMessage "success" successText s1)
                            "Form submission error:")).
      apply showMessage_tidy. eapply tidy_same_form; [reflexivity..|exact Ht2].
    - rewrite <- Hn1.
      exact (showMessage_shows_error
               (log (showMessage "success" successText s1) "Form submission error:")).
    - cbn. exact Hv1.
    - cbn. rewrite Htm1, Hn1, <- app_assoc. reflexivity.
    - cbn. rewrite Hc1, <- app_assoc. reflexivity. }
  destruct o as [a sh rs se]. unfold completion, tried.
  cbn [awaitThrows showSuccessThrows resetThrows showErrorThrows].
  split; [|split; [|split]].
  - intros -> -> ->. split; [reflexivity | exact Hthrough].
  - intros Hfail ->.
    destruct a as [ea|]; [split; [destruct sh, rs; reflexivity | exact Hcaught]|].
    destruct sh as [es|]; [split; [destruct rs; reflexivity | exact Hcaught]|].
    destruct Hfail as [[? Hx]|[? Hx]]; discriminate Hx.
  - intros -> -> [er ->] ->. split; [reflexivity | exact Hreset].
  - intros e -> Hfail.
    assert (Hx : ∀ y, tidy y → values y = values s →
              values (withButton btn (λ e, setTextContent (setDisabled e false) "Submit")
                        (caught (Some e) y)) = values s ∧
              (length (messages (withButton btn
                         (λ e, setTextContent (setDisabled e false) "Submit")
                         (caught (Some e) y))) ≤ 1)%nat).
    { intros y Hy Hvy.
      destruct (Hframe (caught (Some e) y) (nextNode s)) as (Hm & _ & Hv & _); [lia|].
      rewrite Hm, Hv. split; [exact Hvy|]. apply Hy. }
    destruct a as [ea|].
    { split; [destruct sh, rs; reflexivity | now apply Hx]. }
    destruct sh as [es|].
    { split; [destruct rs; reflexivity | now apply Hx]. }
    destruct rs as [er|].
    { split; [reflexivity|]. apply Hx; [|exact Hv1].
      now apply showMessage_tidy. }
    destruct Hfail as [[? Hy]|[[? Hy]|[? Hy]]]; discriminate Hy.
Qed.

Lemma submission_outcome_witness :
  values (snd (handleSubmit (Rejected "offline") contactForm)) = {["name" := "Ada"]} ∧
  values (snd (handleSubmit Resolved contactForm)) = {["name" := ""]} ∧
  messages (snd (handleSubmit (mkOutcome None None (Some "reset is not a function") None)
                              contactForm)) = [4%nat].
Proof.
  assert (Ht : tidy contactForm)
    by (split; [unfold allocated; cbn; repeat constructor | vm_compute; lia]).
  split; [|split].
  - destruct (submission_outcome contactForm (Rejected "offline") Ht) as (_ & H & _).
    destruct H as (_ & _ & _ & Hv & _); [left; cbn; eauto | reflexivity|].
    exact Hv.
  - destruct (submission_outcome contactForm Resolved Ht) as (H & _).
    destruct H as (_ & _ & _ & Hv & _); [reflexivity..|].
    exact Hv.
  - destruct (submission_outcome contactForm
                (mkOutcome None None (Some "reset is not a function") None) Ht)
      as (_ & _ & H & _).
    destruct H as (_ & Hm & _); [reflexivity | reflexivity | cbn; eauto | reflexivity|].
    exact Hm.
Defined.

End FormOutcomes.

Section MessageTimers.

Import FormHandler.

Lemma showMessage_timers type message s :
  timers (showMessage type message s)
  = (timers s ++ [mkTimer 5000 (nextNode s)])%list.
Proof. reflexivity. Qed.

Lemma showMessage_nextNode type message s :
  nextNode (showMessage type message s) = S (nextNode s).
Proof. reflexivity. Qed.

Lemma fire_messages s n t :
  timers s !! n = Some t →
  messages (step s (TimerFires n))
  = filter (λ i, matches (form s) isFormMessage i = true)
           (descendants (removeNode (element t) (root (form s)))).
Proof. intros Ht. cbn [step]. now rewrite Ht. Qed.

(** X24: Each message is taken down by its own timer and by no other.  After
    [showMessage], the timer it set removes the message when it fires.
    When a second message has replaced the first before that, the first
    timer finds its element gone and removes nothing (the second message
    stays up), and the second timer removes the second message. *)
Theorem message_timer_removes_only_its_message
        (s : State) (type1 message1 type2 message2 : string) :
  tidy s →
  let s1 := showMessage type1 message1 s in
  let s2 := showMessage type2 message2 s1 in
  let k := length (timers s) in
  messages (step s1 (TimerFires k)) = [] ∧
  messages s2 = [nextNode s1] ∧
  step s2 (TimerFires k)
  = setTimers s2 (timers s ++ [mkTimer 5000 (nextNode s1)]) ∧
  messages (step s2 (TimerFires k)) = [nextNode s1] ∧
  messages (step s2 (TimerFires (S k))) = [].
Proof.
  intros Ht s1 s2 k.
  destruct (showMessage_tidy type1 message1 s Ht) as [Hm1 Ht1].
  destruct (showMessage_tidy type2 message2 s1 Ht1) as [Hm2 Ht2].
  fold s1 in Hm1, Ht1. fold s2 in Hm2, Ht2.
  assert (Hk1 : timers s1 !! k = Some (mkTimer 5000 (nextNode s))).
  { subst s1 k. rewrite showMessage_timers. apply list_lookup_middle. reflexivity. }
  assert (Hts2 : timers s2
                 = (timers s ++ [mkTimer 5000 (nextNode s); mkTimer 5000 (nextNode s1)])%list).
  { subst s2 s1. rewrite !showMessage_timers, <- app_assoc. reflexivity. }
  assert (Hk2 : timers s2 !! k = Some (mkTimer 5000 (nextNode s))).
  { rewrite Hts2. subst k. apply list_lookup_middle. reflexivity. }
  assert (Hk3 : timers s2 !! S k = Some (mkTimer 5000 (nextNode s1))).
  { rewrite Hts2. subst k.
    change (timers s ++ [mkTimer 5000 (nextNode s); mkTimer 5000 (nextNode s1)])%list
      with (timers s ++ [mkTimer 5000 (nextNode s)] ++ [mkTimer 5000 (nextNode s1)])%list.
    rewrite app_assoc. apply list_lookup_middle.
    rewrite length_app. cbn. lia. }
  assert (Hgone : nextNode s ∉ nodeIds (root (form s2))).
  { subst s2. rewrite showMessage_root, Hm1. cbn [head].
    rewrite nodeIds_appendChild, elem_of_app, list_elem_of_singleton.
    intros [Hin | Heq].
    - revert Hin. apply nodeIds_removeNode_gone.
      subst s1. rewrite showMessage_root, tid_appendChild.
      assert (Hroot : (tid (root (form s)) < nextNode s)%nat).
      { destruct Ht as [Ha _]. unfold allocated in Ha. rewrite Forall_forall in Ha.
        apply Ha. rewrite nodeIds_unfold. left. }
      destruct (head (messages s)); rewrite ?tid_removeNode; lia.
    - subst s1. rewrite showMessage_nextNode in Heq. lia. }
  assert (Hstale : step s2 (TimerFires k)
                   = setTimers s2 (timers s ++ [mkTimer 5000 (nextNode s1)])).
  { cbn [step]. rewrite Hk2. cbn [element].
    rewrite (removeNode_absent _ _ Hgone).
    assert (Hd : delete k (timers s2) = (timers s ++ [mkTimer 5000 (nextNode s1)])%list).
    { rewrite Hts2. subst k. clear. induction (timers s) as [|t l IH]; [reflexivity|].
      cbn. f_equal. exact IH. }
    rewrite Hd. unfold setRoot, setForm, setTimers. cbn.
    destruct s2 as [[pr rt] nn vs ds ts ss cs]. reflexivity. }
  split; [|split; [exact Hm2 | split; [exact Hstale | split]]].
  - rewrite (fire_messages s1 k _ Hk1). cbn [element].
    apply filter_removeNode_only. exact Hm1.
  - rewrite Hstale. exact Hm2.
  - rewrite (fire_messages s2 (S k) _ Hk3). cbn [element].
    apply filter_removeNode_only. exact Hm2.
Qed.

Lemma message_timer_removes_only_its_message_witness :
  messages (step (showMessage "error" "second"
                    (showMessage "success" "first" contactForm))
                 (TimerFires 0))
  = [4%nat].
Proof.
  refine (proj1 (proj2 (proj2 (proj2
            (message_timer_removes_only_its_message contactForm
               "success" "first" "error" "second" _))))).
  split; [unfold allocated; cbn; repeat constructor | vm_compute; lia].
Defined.

End MessageTimers.
